(** * divvy: the rule configuration of [src/config.js]

    A shallow embedding of the [Config] class of divvy (rule sets, glob
    compilation, [addRule], [validate], [findRules], [toJson], the JSON
    loader and the dynamic reload step) and the properties of it that were
    checked against the specification.

    Conventions of the model.
    - A JavaScript string is a [string]: a sequence of code units below 256.
    - A JavaScript object used as an attribute bag (a rule's [operation], an
      incoming operation) is an association list in insertion order, which
      is the order of [Object.keys]; only own properties are modelled and
      the keys of one object are pairwise distinct.
    - An optional string field is [None] when it is [undefined] or [null];
      a numeric field is an integer, or [None] when it is [undefined].
    - A JSON text is represented by the value [JSON.parse] reads from it; a
      failure to read or parse is a [Throw].
    - A [throw] is the [Throw] completion; code that mutates [this] is a
      function from the configuration to a completion and the configuration
      left behind.
    - An ini file is represented by the sections [ini.parse] reads from
      it, in the order of their keys, each field a string or missing. *)

From Stdlib Require Import Ascii String ZArith Lia.
From stdpp Require Import base option list strings gmap pretty.

Open Scope string_scope.
Open Scope list_scope.
Set Default Proof Using "Type".
#[local] Arguments String.append !s1 s2 : simpl nomatch.
#[local] Arguments Ascii.eqb : simpl never.
#[local] Arguments String.eqb : simpl never.

(** ** Strings *)

Module Str.

Fixpoint mem (c : ascii) (s : string) : bool :=
  match s with
  | EmptyString => false
  | String d r => Ascii.eqb c d || mem c r
  end.

(** [s.startsWith(p)] *)
Fixpoint startsWith (p s : string) : bool :=
  match p, s with
  | EmptyString, _ => true
  | String a p', String b s' => Ascii.eqb a b && startsWith p' s'
  | String _ _, EmptyString => false
  end.

Definition headIs (c : ascii) (s : string) : bool :=
  match s with
  | String d _ => Ascii.eqb c d
  | EmptyString => false
  end.

(** Two adjacent occurrences of [c]. *)
Fixpoint hasDouble (c : ascii) (s : string) : bool :=
  match s with
  | EmptyString => false
  | String d r => (Ascii.eqb c d && headIs c r) || hasDouble c r
  end.

End Str.

(** ** Errors and completions *)

(** Plain JavaScript objects print as this in a template literal. *)
Definition objectToString (o : list (string * string)) : string :=
  "[object Object]".

Definition quote : string := String (ascii_of_nat 34) EmptyString.

Definition showNumber (n : option Z) : string :=
  match n with
  | Some z => pretty z
  | None => "undefined"
  end.

(** What the code throws.  The arguments of a constructor are the values
    the source interpolates into the message of the [Error] it constructs. *)
Inductive Error : Type :=
  | OperationMissing
  | UnreachableRule (operation masking : list (string * string))
  | InvalidCreditLimit (operation : list (string * string)) (creditLimit : option Z)
  | InvalidResetSeconds (operation : list (string * string)) (resetSeconds : option Z)
  | InvalidLabel (label : string)
  | DuplicateLabel (label : string)
  | InvalidMatchPolicy (matchPolicy : string)
  | NoRules
  | NoDefaultRule
  | BugNoMatchPolicy
  | RegExpSyntaxError (source : string)   (* thrown by [new RegExp] *)
  | JsonParseError                        (* thrown by [JSON.parse] or [readFileSync] *)
  | TypeError                             (* a method called on [undefined] *)
  | OutsideFragment (source : string).    (* a pattern outside the fragment modelled *)

(** The text of an error the source constructs, which is all a caller can
    observe of it; the errors of the runtime have a text of their own. *)
Definition message (e : Error) : option string :=
  match e with
  | OperationMissing => Some "Operation must be specified."
  | UnreachableRule operation masking =>
      Some ("Unreachable rule for operation=" +:+ objectToString operation +:+
            "; masked by operation=" +:+ objectToString masking)
  | InvalidCreditLimit operation creditLimit =>
      Some ("Invalid creditLimit for operation=" +:+ objectToString operation +:+
            " (" +:+ showNumber creditLimit +:+ ")")
  | InvalidResetSeconds operation resetSeconds =>
      Some ("Invalid resetSeconds for operation=" +:+ objectToString operation +:+
            " (" +:+ showNumber resetSeconds +:+ ")")
  | InvalidLabel label =>
      Some ("Invalid rule label " +:+ quote +:+ label +:+ quote +:+
            "; must match /^[a-zA-Z0-9_-]{1,255}$/")
  | DuplicateLabel label =>
      Some ("A rule with label " +:+ quote +:+ label +:+ quote +:+
            " already exists; labels must be unique.")
  | InvalidMatchPolicy matchPolicy =>
      Some ("Invalid matchPolicy " +:+ quote +:+ matchPolicy +:+ quote)
  | NoRules => Some "Config does not define any rules."
  | NoDefaultRule => Some "Config does not define a default rule."
  | BugNoMatchPolicy => Some "Bug: Rule does not define a match policy."
  | RegExpSyntaxError _ | JsonParseError | TypeError | OutsideFragment _ => None
  end.

Inductive Completion (A : Type) : Type :=
  | Normal (a : A)
  | Throw (e : Error).
Arguments Normal {A} a.
Arguments Throw {A} e.

Definition bindC {A B} (m : Completion A) (k : A -> Completion B) : Completion B :=
  match m with
  | Normal a => k a
  | Throw e => Throw e
  end.

Notation "'let*' x := m 'in' k" := (bindC m (fun x => k))
  (at level 10, x name, m at level 100, k at level 200).

(** ** Regular expressions: the fragment [parseGlob] produces *)

Module RegExp.

Inductive Atom : Type :=
  | AnyChar                  (* [.] *)
  | Literal (c : ascii).     (* a pattern character or an identity escape *)

Inductive Term : Type :=
  | Once (a : Atom)
  | Star (a : Atom).         (* [a*] *)

(** A pattern [^t1 t2 ... tn]: the assertion [^] followed by terms. *)
Definition Pattern : Type := list Term.

(** The syntax characters of ECMAScript patterns. *)
Definition SYNTAX_CHARACTERS : string := "^$\.*+?()[]{}|".

Definition isSyntaxCharacter (c : ascii) : bool := Str.mem c SYNTAX_CHARACTERS.

(** The characters after which [\] is read here as an identity escape:
    the syntax characters and [-], [,], [#]. *)
Definition isIdentityEscape (c : ascii) : bool :=
  isSyntaxCharacter c || Str.mem c "-,#".

#[global] Arguments isSyntaxCharacter : simpl never.
#[global] Arguments isIdentityEscape : simpl never.

Definition consTerm (t : Term) (r : Completion Pattern) : Completion Pattern :=
  let* p := r in Normal (t :: p).

(** An atom followed by [*] is repeated; [parse] reads the rest. *)
Definition quantified (parse : string -> Completion Pattern) (a : Atom) (r : string)
  : Completion Pattern :=
  match r with
  | String d r' =>
      if Ascii.eqb d "*" then consTerm (Star a) (parse r')
      else consTerm (Once a) (parse r)
  | EmptyString => consTerm (Once a) (parse r)
  end.

(** Parsing of the text after [^].  [whole] is only carried for the error
    message.  A [*] where an atom is expected has nothing to repeat. *)
Fixpoint parseTerms (whole : string) (s : string) : Completion Pattern :=
  match s with
  | EmptyString => Normal []
  | String c r =>
      if Ascii.eqb c "\" then
        match r with
        | String e r' =>
            if isIdentityEscape e
            then quantified (parseTerms whole) (Literal e) r'
            else Throw (OutsideFragment whole)
        | EmptyString => Throw (OutsideFragment whole)
        end
      else if Ascii.eqb c "*" then Throw (RegExpSyntaxError whole)
      else if Ascii.eqb c "." then quantified (parseTerms whole) AnyChar r
      else if isSyntaxCharacter c then Throw (OutsideFragment whole)
      else quantified (parseTerms whole) (Literal c) r
  end.

(** [new RegExp(source)] for sources that start with [^]. *)
Definition new (source : string) : Completion Pattern :=
  match source with
  | String "^" s => parseTerms source s
  | _ => Throw (OutsideFragment source)
  end.

(** [.] matches every code unit but the line terminators. *)
Definition isLineTerminator (c : ascii) : bool :=
  Ascii.eqb c (ascii_of_nat 10) || Ascii.eqb c (ascii_of_nat 13).

Definition atomMatches (a : Atom) (c : ascii) : bool :=
  match a with
  | AnyChar => negb (isLineTerminator c)
  | Literal d => Ascii.eqb c d
  end.

(** Does some prefix of [s] match the terms?  The engine tries the longest
    repetition first and backtracks; whether a match exists does not depend
    on that order. *)
Fixpoint matchPrefix (p : Pattern) (s : string) : bool :=
  match p with
  | [] => true
  | Once a :: p' =>
      match s with
      | String c s' => atomMatches a c && matchPrefix p' s'
      | EmptyString => false
      end
  | Star a :: p' =>
      (fix star (s : string) : bool :=
         matchPrefix p' s ||
         match s with
         | String c s' => atomMatches a c && star s'
         | EmptyString => false
         end) s
  end.

(** [re.test(value)]: the argument is converted to a string, so a missing
    attribute is tested as the text [undefined].  Without the [g] and [y]
    flags the search starts at index 0, and [^] fails at any later index. *)
Definition test (re : Pattern) (value : option string) : bool :=
  match value with
  | Some s => matchPrefix re s
  | None => matchPrefix re "undefined"
  end.

End RegExp.

(** ** Glob compilation *)

(** The characters of [REGEX_ESCAPE_CHARACTERS = /[-[\]{}()+?.,\\^$|#]/g]. *)
Definition REGEX_ESCAPE_CHARACTERS : string := "-[]{}()+?.,\^$|#".

Definition isEscapeCharacter (c : ascii) : bool := Str.mem c REGEX_ESCAPE_CHARACTERS.
#[global] Arguments isEscapeCharacter : simpl never.

(** [v.match(/\*/)] as a truth value. *)
Definition isGlobValue (v : string) : bool := Str.mem "*" v.

(** [ruleValue.replace(REGEX_ESCAPE_CHARACTERS, '\\$&')] *)
Fixpoint escapeRegex (ruleValue : string) : string :=
  match ruleValue with
  | EmptyString => EmptyString
  | String c r =>
      if isEscapeCharacter c
      then String "\" (String c (escapeRegex r))
      else String c (escapeRegex r)
  end.

(** [ruleValue.replace('*', '.*')]: a string pattern replaces the first
    occurrence only. *)
Fixpoint replaceFirstStar (ruleValue : string) : string :=
  match ruleValue with
  | EmptyString => EmptyString
  | String c r =>
      if Ascii.eqb c "*" then String "." (String "*" r)
      else String c (replaceFirstStar r)
  end.

(** The text handed to [new RegExp]. *)
Definition parseGlobSource (ruleValue : string) : string :=
  String "^" (replaceFirstStar (escapeRegex ruleValue)).

Definition parseGlob (ruleValue : string) : Completion RegExp.Pattern :=
  RegExp.new (parseGlobSource ruleValue).

(** ** Rules and configurations *)

(** An attribute bag: a rule's pattern or an incoming operation. *)
Definition Operation : Type := list (string * string).

(** [operation[key]]; [None] is [undefined]. *)
Fixpoint get (operation : Operation) (key : string) : option string :=
  match operation with
  | [] => None
  | (k, v) :: rest => if String.eqb k key then Some v else get rest key
  end.

(** Truthiness of a string-or-null value. *)
Definition truthy (v : option string) : bool :=
  match v with
  | Some s => negb (String.eqb s "")
  | None => false
  end.

(** [v || null] *)
Definition orNull (v : option string) : option string :=
  if truthy v then v else None.

(** Modelled from the spec: the two match policies of [constants.js], which
    is not among the sources; the spec names them [stop] and [canary]. *)
Definition MATCH_POLICY_STOP : string := "stop".
Definition MATCH_POLICY_CANARY : string := "canary".

(** A rule declaration: the argument object of [addRule] and the shape of a
    rule in the JSON file.  An absent numeric field is [None]. *)
Module Raw.
Record t : Type := mk {
  operation : option Operation;
  creditLimit : option Z;
  resetSeconds : option Z;
  actorField : option string;
  matchPolicy : option string;
  label : option string;
  comment : option string;
}.
End Raw.

(** An installed rule, as [addRule] builds it. *)
Module Rule.
Record t : Type := mk {
  operation : Operation;
  creditLimit : option Z;
  resetSeconds : option Z;
  actorField : option string;
  matchPolicy : option string;
  label : option string;
  comment : option string;
}.

(** [rule.matchPolicy === Constants.MATCH_POLICY_STOP] *)
Definition isStop (rule : t) : bool :=
  match matchPolicy rule with
  | Some p => String.eqb p MATCH_POLICY_STOP
  | None => false
  end.

(** [Object.keys(rule.operation).length === 0] *)
Definition isDefault (rule : t) : bool :=
  match operation rule with
  | [] => true
  | _ :: _ => false
  end.
End Rule.

Record Config : Type := mkConfig {
  rules : list Rule.t;
  ruleLabels : gset string;
}.

(** [new Config()] *)
Definition newConfig : Config := {| rules := []; ruleLabels := ∅ |}.

(** ** Matching *)

(** The test of one pattern key of [findRules]. *)
Definition matchKey (operationKey operationValue : string) (operation : Operation)
  : Completion bool :=
  if String.eqb operationValue "*" then Normal true
  else if isGlobValue operationValue then
    let* re := parseGlob operationValue in
    Normal (RegExp.test re (get operation operationKey))
  else
    match get operation operationKey with
    | Some actual => Normal (String.eqb operationValue actual)
    | None => Normal false
    end.

(** The inner loop of [findRules] over [Object.keys(rule.operation)]: it
    stops at the first key that fails. *)
Fixpoint matchKeys (pattern : Operation) (operation : Operation) : Completion bool :=
  match pattern with
  | [] => Normal true
  | (operationKey, operationValue) :: rest =>
      let* matched := matchKey operationKey operationValue operation in
      if matched then matchKeys rest operation else Normal false
  end.

(** The outer loop of [findRules]; [result] is the array built so far. *)
Fixpoint findRulesFrom (rs : list Rule.t) (operation : Operation) (result : list Rule.t)
  : Completion (list Rule.t) :=
  match rs with
  | [] => Normal result
  | rule :: rest =>
      if negb (truthy (Rule.matchPolicy rule)) then Throw BugNoMatchPolicy
      else
        let* matched := matchKeys (Rule.operation rule) operation in
        if matched then
          let result := result ++ [rule] in
          if Rule.isStop rule then Normal result
          else findRulesFrom rest operation result
        else findRulesFrom rest operation result
  end.

Definition findRules (this : Config) (operation : Operation) : Completion (list Rule.t) :=
  findRulesFrom (rules this) operation [].

(** ** Construction *)

(** [RULE_LABEL_REGEX = /^[a-zA-Z0-9_-]{1,255}$/] *)
Definition isLabelChar (c : ascii) : bool :=
  let n := nat_of_ascii c in
  (Nat.leb 97 n && Nat.leb n 122) || (Nat.leb 65 n && Nat.leb n 90) ||
  (Nat.leb 48 n && Nat.leb n 57) || Nat.eqb n 95 || Nat.eqb n 45.

Fixpoint allChars (f : ascii -> bool) (s : string) : bool :=
  match s with
  | EmptyString => true
  | String c r => f c && allChars f r
  end.

Definition RULE_LABEL_REGEX_test (label : string) : bool :=
  Nat.leb 1 (String.length label) && Nat.leb (String.length label) 255 &&
  allChars isLabelChar label.

(** [Number.isNaN(Number(creditLimit)) || creditLimit < 0] *)
Definition invalidCreditLimit (creditLimit : option Z) : bool :=
  match creditLimit with
  | None => true
  | Some n => (n <? 0)%Z
  end.

(** [creditLimit > 0 && (Number.isNaN(Number(resetSeconds)) || resetSeconds < 1)] *)
Definition invalidResetSeconds (creditLimit resetSeconds : option Z) : bool :=
  match creditLimit with
  | Some n =>
      (0 <? n)%Z &&
      match resetSeconds with
      | None => true
      | Some r => (r <? 1)%Z
      end
  | None => false
  end.

(** The rule object [addRule] pushes. *)
Definition makeRule (operation : Operation) (arg : Raw.t) : Rule.t :=
  {| Rule.operation := operation;
     Rule.creditLimit := Raw.creditLimit arg;
     Rule.resetSeconds := Raw.resetSeconds arg;
     Rule.actorField := orNull (Raw.actorField arg);
     Rule.matchPolicy :=
       if truthy (Raw.matchPolicy arg) then Raw.matchPolicy arg
       else Some MATCH_POLICY_STOP;
     Rule.label := orNull (Raw.label arg);
     Rule.comment := orNull (Raw.comment arg) |}.

(** The label block of [addRule]: the label is recorded in [ruleLabels]
    before the match policy is looked at. *)
Definition checkLabel (label : option string) (this : Config) : Completion unit * Config :=
  match label with
  | Some l =>
      if negb (truthy label) then (Normal (), this)
      else if negb (RULE_LABEL_REGEX_test l) then (Throw (InvalidLabel l), this)
      else if bool_decide (l ∈ ruleLabels this) then (Throw (DuplicateLabel l), this)
      else (Normal (), {| rules := rules this; ruleLabels := ruleLabels this ∪ {[ l ]} |})
  | None => (Normal (), this)
  end.

(** The [switch] on the match policy. *)
Definition checkMatchPolicy (matchPolicy : option string) : Completion unit :=
  match matchPolicy with
  | Some p =>
      if negb (truthy matchPolicy) then Normal ()
      else if String.eqb p MATCH_POLICY_STOP || String.eqb p MATCH_POLICY_CANARY
      then Normal ()
      else Throw (InvalidMatchPolicy p)
  | None => Normal ()
  end.

(** [this.addRule(arg)]: the completion and the configuration left behind. *)
Definition addRule (arg : Raw.t) (this : Config) : Completion unit * Config :=
  match Raw.operation arg with
  | None => (Throw OperationMissing, this)
  | Some operation =>
      match findRules this operation with
      | Throw e => (Throw e, this)
      | Normal found =>
          match List.find Rule.isStop found with
          | Some firstFoundRule =>
              (Throw (UnreachableRule operation (Rule.operation firstFoundRule)), this)
          | None =>
              if invalidCreditLimit (Raw.creditLimit arg)
              then (Throw (InvalidCreditLimit operation (Raw.creditLimit arg)), this)
              else if invalidResetSeconds (Raw.creditLimit arg) (Raw.resetSeconds arg)
              then (Throw (InvalidResetSeconds operation (Raw.resetSeconds arg)), this)
              else
                match checkLabel (Raw.label arg) this with
                | (Throw e, this) => (Throw e, this)
                | (Normal _, this) =>
                    match checkMatchPolicy (Raw.matchPolicy arg) with
                    | Throw e => (Throw e, this)
                    | Normal _ =>
                        (Normal (),
                         {| rules := rules this ++ [makeRule operation arg];
                            ruleLabels := ruleLabels this |})
                    end
                end
          end
      end
  end.

(** [this.validate()] *)
Definition validate (this : Config) : Completion unit :=
  match last (rules this) with
  | None => Throw NoRules
  | Some lastRule =>
      if Rule.isDefault lastRule then Normal () else Throw NoDefaultRule
  end.

(** ** Loading, serialization and reload *)

(** A JSON text is represented by the value [JSON.parse] reads from it: an
    object with an optional array [overrides] of declarations and an
    optional declaration [default]. *)
Module RawConfig.
Record t : Type := mk {
  overrides : option (list Raw.t);
  default : option Raw.t;
}.
End RawConfig.

(** Modelled from the spec: [Utils.stringifyObjectValues] of [utils.js],
    which is not among the sources.  The default declaration has no
    [operation] field and yields the empty pattern; the values of a pattern
    are strings already. *)
Definition stringifyObjectValues (operation : option Operation) : Operation :=
  match operation with
  | Some o => o
  | None => []
  end.

(** The object literal the loaders pass to [addRule]. *)
Definition declaration (rule : Raw.t) : Raw.t :=
  {| Raw.operation := Some (stringifyObjectValues (Raw.operation rule));
     Raw.creditLimit := Raw.creditLimit rule;
     Raw.resetSeconds := Raw.resetSeconds rule;
     Raw.actorField := Raw.actorField rule;
     Raw.matchPolicy := Raw.matchPolicy rule;
     Raw.label := Raw.label rule;
     Raw.comment := Raw.comment rule |}.

(** [declarations.forEach(rule => config.addRule({...}))]: the first throw
    ends the loop and leaves the rules added so far in place. *)
Fixpoint addRules (declarations : list Raw.t) (config : Config) : Completion unit * Config :=
  match declarations with
  | [] => (Normal (), config)
  | rule :: rest =>
      match addRule (declaration rule) config with
      | (Throw e, config) => (Throw e, config)
      | (Normal _, config) => addRules rest config
      end
  end.

(** [rawConfig.overrides.push(rawConfig.default)] when the default is an
    object, then [rawConfig.overrides || []]. *)
Definition withDefault (overrides : option (list Raw.t)) (default : option Raw.t)
  : Completion (list Raw.t) :=
  match default with
  | Some d =>
      match overrides with
      | Some o => Normal (o ++ [d])
      | None => Throw TypeError
      end
  | None =>
      match overrides with
      | Some o => Normal o
      | None => Normal []
      end
  end.

(** [Config.fromJsonFile(filename)] with the watch on the dynamic source
    switched off; [file] is what reading and parsing the file gives. *)
Definition fromJsonFile (file : Completion RawConfig.t) : Completion Config :=
  let* rawConfig := file in
  let* declarations :=
    withDefault (RawConfig.overrides rawConfig) (RawConfig.default rawConfig) in
  match addRules declarations newConfig with
  | (Throw e, _) => Throw e
  | (Normal _, config) =>
      let* _ := validate config in
      Normal config
  end.

(** The declaration [JSON.parse] reads back from a stringified rule: a
    [null] field is read as [null], an [undefined] one is left out. *)
Definition ruleToJson (rule : Rule.t) : Raw.t :=
  {| Raw.operation := Some (Rule.operation rule);
     Raw.creditLimit := Rule.creditLimit rule;
     Raw.resetSeconds := Rule.resetSeconds rule;
     Raw.actorField := Rule.actorField rule;
     Raw.matchPolicy := Rule.matchPolicy rule;
     Raw.label := Rule.label rule;
     Raw.comment := Rule.comment rule |}.

(** The loop of [toJson]: every empty-pattern rule is assigned to
    [data.default], the others are pushed to [data.overrides]. *)
Fixpoint toJsonFrom (rs : list Rule.t) (data : RawConfig.t) : RawConfig.t :=
  match rs with
  | [] => data
  | rule :: rest =>
      if Rule.isDefault rule
      then toJsonFrom rest
             {| RawConfig.overrides := RawConfig.overrides data;
                RawConfig.default := Some (ruleToJson rule) |}
      else toJsonFrom rest
             {| RawConfig.overrides :=
                  Some (match RawConfig.overrides data with
                        | Some o => o ++ [ruleToJson rule]
                        | None => [ruleToJson rule]
                        end);
                RawConfig.default := RawConfig.default data |}
  end.

Definition toJson (this : Config) : RawConfig.t :=
  toJsonFrom (rules this) {| RawConfig.overrides := Some []; RawConfig.default := None |}.

(** [fetched.forEach(rule => rawConfig.overrides.unshift(rule))]: each
    fetched rule is put in front of the ones before it. *)
Definition unshiftAll (fetched : list Raw.t) (overrides : option (list Raw.t))
  : Completion (option (list Raw.t)) :=
  match fetched, overrides with
  | [], _ => Normal overrides
  | _ :: _, Some o => Normal (Some (rev fetched ++ o))
  | _ :: _, None => Throw TypeError
  end.

(** The declarations of a reload cycle, in the order they are added:
    the fetched rules, the overrides of the file, the default. *)
Definition reloadDeclarations (rawConfig : RawConfig.t) (fetched : Completion (list Raw.t))
  : Completion (list Raw.t) :=
  let* fetched := fetched in
  let* overrides := unshiftAll fetched (RawConfig.overrides rawConfig) in
  withDefault overrides (RawConfig.default rawConfig).

(** [config.processNewRules(rules, config)]: one reload cycle.  [isIni]
    tells whether the static file has the extension [.ini], [file] is what
    reading and parsing the static file gives, [fetched] what parsing the
    data of the watched node gives.  The rules and labels of [config] are
    reset once the static file is read, before anything else is looked at. *)
Definition processNewRules (isIni : bool) (file : Completion RawConfig.t)
    (fetched : Completion (list Raw.t)) (config : Config) : Completion unit * Config :=
  if isIni then (Normal (), config)
  else
    match file with
    | Throw e => (Throw e, config)
    | Normal rawConfig =>
        let config := {| rules := []; ruleLabels := ∅ |} in
        match reloadDeclarations rawConfig fetched with
        | Throw e => (Throw e, config)
        | Normal declarations =>
            match addRules declarations config with
            | (Throw e, config) => (Throw e, config)
            | (Normal _, config) => (validate config, config)
            end
        end
    end.

(** ** Notions used in the statements *)

(** The pattern that takes the characters of [p] literally. *)
Definition literals (p : string) : RegExp.Pattern :=
  map (fun c => RegExp.Once (RegExp.Literal c)) (list_ascii_of_string p).

Definition prepend (l : RegExp.Pattern) (r : Completion RegExp.Pattern)
  : Completion RegExp.Pattern :=
  let* re := r in Normal (l ++ re).

(** Results of the parser that are values or the syntax error. *)
Definition parsedOrSyntaxError (w : string) (r : Completion RegExp.Pattern) : Prop :=
  (exists re, r = Normal re) \/ r = Throw (RegExpSyntaxError w).

(** A pattern none of whose values has two adjacent [*]. *)
Definition noDoubleStar (pattern : Operation) : Prop :=
  Forall (fun kv => Str.hasDouble "*" (snd kv) = false) pattern.

(** A rule [findRules] evaluates without throwing. *)
Definition evaluable (rule : Rule.t) : Prop :=
  truthy (Rule.matchPolicy rule) = true /\ noDoubleStar (Rule.operation rule).

(** The configurations that calls of [addRule] on a new [Config] lead to,
    the calls that throw included. *)
Inductive Built : Config -> Prop :=
  | Built_new : Built newConfig
  | Built_addRule (arg : Raw.t) (this : Config) :
      Built this -> Built (snd (addRule arg this)).


(** ** Rules and files used as examples *)

Definition canaryForX : Rule.t :=
  Rule.mk [("op", "x")] (Some 5%Z) (Some 60%Z) None (Some "canary") None None.
Definition stopForAll : Rule.t :=
  Rule.mk [] (Some 1%Z) (Some 60%Z) None (Some "stop") None None.
Definition brokenGlob : Rule.t :=
  Rule.mk [("op", "x**")] (Some 1%Z) (Some 60%Z) None (Some "stop") None None.

Definition defaultDeclaration : Raw.t :=
  Raw.mk (Some []) (Some 1%Z) (Some 60%Z) None None None None.

Definition configWithDefault : Config := snd (addRule defaultDeclaration newConfig).

Definition declarationForX : Raw.t :=
  Raw.mk (Some [("op", "x")]) (Some 1%Z) (Some 60%Z) None (Some "stop") None None.

Definition staticFile : RawConfig.t :=
  {| RawConfig.overrides := Some []; RawConfig.default := Some defaultDeclaration |}.



Definition doubleStarDeclaration : Raw.t :=
  Raw.mk (Some [("a", "x"); ("b", "y**")]) (Some 1%Z) (Some 60%Z) None None None None.

(** ** Further notions used in the statements *)

(** The rule matches the operation: its keys are all evaluated and pass. *)
Definition ruleMatches (operation : Operation) (rule : Rule.t) : bool :=
  match matchKeys (Rule.operation rule) operation with
  | Normal true => true
  | _ => false
  end.

(** A pattern all of whose values are the wildcard [*]. *)
Definition allWildcards (pattern : Operation) : Prop :=
  Forall (fun kv => snd kv = "*") pattern.

(** A pattern none of whose values has a [*]. *)
Definition exactPattern (pattern : Operation) : Prop :=
  Forall (fun kv => isGlobValue (snd kv) = false) pattern.


(** ** Further rules used as examples *)

Definition wildcardDeclaration : Raw.t :=
  Raw.mk (Some [("op", "*")]) (Some 1%Z) (Some 60%Z) None None None None.

Definition configWithWildcard : Config := snd (addRule wildcardDeclaration newConfig).


(** The limits, the policy and the optional fields [addRule] lets in. *)
Definition wellFormedRule (rule : Rule.t) : Prop :=
  (exists n, Rule.creditLimit rule = Some n /\ (0 <= n)%Z /\
     ((0 < n)%Z -> exists s, Rule.resetSeconds rule = Some s /\ (1 <= s)%Z)) /\
  (Rule.matchPolicy rule = Some MATCH_POLICY_STOP \/
   Rule.matchPolicy rule = Some MATCH_POLICY_CANARY) /\
  (forall l, Rule.label rule = Some l -> RULE_LABEL_REGEX_test l = true) /\
  Rule.actorField rule <> Some "" /\ Rule.comment rule <> Some "".

(** The labels the rules carry, in the order of the rules. *)
Definition labelsOf (rs : list Rule.t) : list string := omap Rule.label rs.

Definition invalidPolicyDeclaration : Raw.t :=
  Raw.mk (Some [("op", "x")]) (Some 1%Z) (Some 60%Z) None (Some "sometimes")
         (Some "limit-x") None.

Definition labelledDeclaration : Raw.t :=
  Raw.mk (Some [("op", "y")]) (Some 1%Z) (Some 60%Z) None None (Some "limit-x") None.


(** The rule a loader installs for a declaration of the file. *)
Definition installed (rule : Raw.t) : Rule.t :=
  makeRule (stringifyObjectValues (Raw.operation rule)) (declaration rule).

(** The rule has at least one pattern key. *)
Definition hasPattern (rule : Rule.t) : bool := negb (Rule.isDefault rule).

(** [data.default] after the loop of [toJson] over [rs]. *)
Definition lastDefault (rs : list Rule.t) : option Raw.t :=
  option_map ruleToJson (last (List.filter Rule.isDefault rs)).


(** ** The ini loader *)

(** The class [\s] of regular expressions among the code units below 256:
    tab, line feed, vertical tab, form feed, carriage return, space and the
    no-break space.  [parseInt] skips the same characters. *)
Definition isWhiteSpace (c : ascii) : bool :=
  let n := nat_of_ascii c in
  (Nat.leb 9 n && Nat.leb n 13) || Nat.eqb n 32 || Nat.eqb n 160.
#[global] Arguments isWhiteSpace : simpl never.

(** [s.split(/\s+/)]: the pieces between the runs of white space; a run at
    the start or at the end leaves an empty piece there, and the empty
    string gives one empty piece.  [inSeparator] tells that the character
    before was white space. *)
Fixpoint splitWhitespaceFrom (s : string) (inSeparator : bool) : list string :=
  match s with
  | EmptyString => [""]
  | String c r =>
      if isWhiteSpace c then
        if inSeparator then splitWhitespaceFrom r true
        else "" :: splitWhitespaceFrom r true
      else
        match splitWhitespaceFrom r false with
        | piece :: pieces => String c piece :: pieces
        | [] => [String c ""]
        end
  end.

Definition splitWhitespace (s : string) : list string := splitWhitespaceFrom s false.

(** [kv.split('=')] *)
Fixpoint splitEquals (kv : string) : list string :=
  match kv with
  | EmptyString => [""]
  | String c r =>
      if Ascii.eqb c "=" then "" :: splitEquals r
      else
        match splitEquals r with
        | piece :: pieces => String c piece :: pieces
        | [] => [String c ""]
        end
  end.

Definition isDigit (c : ascii) : bool :=
  Nat.leb 48 (nat_of_ascii c) && Nat.leb (nat_of_ascii c) 57.
#[global] Arguments isDigit : simpl never.

(** The number written by decimal digits, after the digits read so far. *)
Fixpoint digitsValue (digits : string) (sofar : N) : N :=
  match digits with
  | EmptyString => sofar
  | String c r => digitsValue r (10 * sofar + (N.of_nat (nat_of_ascii c) - 48))%N
  end.

(** A property key that is an array index: the decimal text, without a
    leading zero, of an integer below 2^32 - 1.  An object lists such keys
    first, in ascending order. *)
Definition arrayIndex (key : string) : option N :=
  match key with
  | EmptyString => None
  | String c r =>
      if allChars isDigit key && (negb (Ascii.eqb c "0") || String.eqb r "") then
        let n := digitsValue key 0%N in
        if (n <? 4294967295)%N then Some n else None
      else None
  end.

Fixpoint hasKey (operation : Operation) (key : string) : bool :=
  match operation with
  | [] => false
  | (k, _) :: rest => String.eqb k key || hasKey rest key
  end.

Fixpoint replaceValue (operation : Operation) (key value : string) : Operation :=
  match operation with
  | [] => []
  | (k, v) :: rest =>
      if String.eqb k key then (k, value) :: rest
      else (k, v) :: replaceValue rest key value
  end.

(** A new array index goes behind the smaller indices and in front of all
    the other keys. *)
Fixpoint insertIndex (n : N) (key value : string) (operation : Operation) : Operation :=
  match operation with
  | [] => [(key, value)]
  | (k, v) :: rest =>
      match arrayIndex k with
      | Some m =>
          if (m <? n)%N then (k, v) :: insertIndex n key value rest
          else (key, value) :: (k, v) :: rest
      | None => (key, value) :: (k, v) :: rest
      end
  end.

(** [operation[key] = value] on a plain object, for a string [value]: the
    key [__proto__] reaches the setter of the prototype, which ignores a
    string; a key the object has keeps its place; a new key goes to the end,
    or among the array indices if it is one. *)
Definition set (operation : Operation) (key value : string) : Operation :=
  if String.eqb key "__proto__" then operation
  else if hasKey operation key then replaceValue operation key value
  else
    match arrayIndex key with
    | Some n => insertIndex n key value operation
    | None => operation ++ [(key, value)]
    end.

(** [pair[0]] and [pair[1] || ''] of [kv.split('=')]. *)
Definition pairKey (kv : string) : string := nth 0 (splitEquals kv) "".
Definition pairValue (kv : string) : string := nth 1 (splitEquals kv) "".

(** [Config.stringToOperation(s)] *)
Definition stringToOperation (s : string) : Operation :=
  if String.eqb s "default" then []
  else
    fold_left (fun operation kv => set operation (pairKey kv) (pairValue kv))
              (splitWhitespace s) [].

Fixpoint dropWhiteSpace (s : string) : string :=
  match s with
  | EmptyString => EmptyString
  | String c r => if isWhiteSpace c then dropWhiteSpace r else s
  end.

Fixpoint takeDigits (s : string) : string :=
  match s with
  | EmptyString => EmptyString
  | String c r => if isDigit c then String c (takeDigits r) else EmptyString
  end.

(** [parseInt(value, 10)]: white space, a sign, then the decimal digits up
    to the first other character; [None] is [NaN], the result for a missing
    field and for a text without a digit there. *)
Definition parseInt (value : option string) : option Z :=
  match value with
  | None => None
  | Some s =>
      let s := dropWhiteSpace s in
      let (negative, s) :=
        match s with
        | String c r =>
            if Ascii.eqb c "-" then (true, r)
            else if Ascii.eqb c "+" then (false, r)
            else (false, s)
        | EmptyString => (false, s)
        end in
      match takeDigits s with
      | EmptyString => None
      | digits =>
          let n := Z.of_N (digitsValue digits 0%N) in
          Some (if negative then (- n)%Z else n)
      end
  end.

(** A section of the parsed ini file: the fields [fromIniFile] reads, each
    a string or missing. *)
Module IniSection.
Record t : Type := mk {
  creditLimit : option string;
  resetSeconds : option string;
  actorField : option string;
  matchPolicy : option string;
  label : option string;
  comment : option string;
}.
End IniSection.

(** [field || ''] *)
Definition orEmpty (field : option string) : option string :=
  match field with
  | Some s => Some s
  | None => Some ""
  end.

(** The argument [fromIniFile] passes to [addRule] for a section. *)
Definition iniDeclaration (rulegroupString : string) (rulegroupConfig : IniSection.t)
  : Raw.t :=
  {| Raw.operation := Some (stringToOperation rulegroupString);
     Raw.creditLimit := parseInt (IniSection.creditLimit rulegroupConfig);
     Raw.resetSeconds := parseInt (IniSection.resetSeconds rulegroupConfig);
     Raw.actorField := orEmpty (IniSection.actorField rulegroupConfig);
     Raw.matchPolicy := orEmpty (IniSection.matchPolicy rulegroupConfig);
     Raw.label := orEmpty (IniSection.label rulegroupConfig);
     Raw.comment := orEmpty (IniSection.comment rulegroupConfig) |}.

(** The loop of [fromIniFile] over [Object.keys(rawConfig)]. *)
Fixpoint addIniRules (rawConfig : list (string * IniSection.t)) (config : Config)
  : Completion unit * Config :=
  match rawConfig with
  | [] => (Normal (), config)
  | (rulegroupString, rulegroupConfig) :: rest =>
      match addRule (iniDeclaration rulegroupString rulegroupConfig) config with
      | (Throw e, config) => (Throw e, config)
      | (Normal _, config) => addIniRules rest config
      end
  end.

(** [Config.fromIniFile(filename)]; [file] is what reading the file and
    [ini.parse] give: the sections in the order of their keys. *)
Definition fromIniFile (file : Completion (list (string * IniSection.t)))
  : Completion Config :=
  let* rawConfig := file in
  match addIniRules rawConfig newConfig with
  | (Throw e, _) => Throw e
  | (Normal _, config) =>
      let* _ := validate config in
      Normal config
  end.

(** The rule [fromIniFile] installs for a section. *)
Definition iniRule (group : string * IniSection.t) : Rule.t :=
  makeRule (stringToOperation (fst group)) (iniDeclaration (fst group) (snd group)).

(** The text [k1=v1 k2=v2 ...] of a list of pairs. *)
Fixpoint formatOperation (pairs : Operation) : string :=
  match pairs with
  | [] => ""
  | [(k, v)] => k +:+ String "=" v
  | (k, v) :: rest => k +:+ String "=" v +:+ String " " (formatOperation rest)
  end.

(** A text that can stand for a key or a value in a section name. *)
Definition plainText (s : string) : Prop :=
  allChars (fun c => negb (isWhiteSpace c) && negb (Ascii.eqb c "=")) s = true.

(** A key that [set] appends: not [__proto__] and not an array index. *)
Definition plainKey (key : string) : Prop :=
  plainText key /\ key <> "__proto__" /\ arrayIndex key = None.

Definition iniSectionX : IniSection.t :=
  IniSection.mk (Some "10") (Some "60") None None None None.


(** A text without white space. *)
Definition noWhiteSpace (s : string) : Prop :=
  allChars (fun c => negb (isWhiteSpace c)) s = true.

Definition formatPair (kv : string * string) : string :=
  fst kv +:+ String "=" (snd kv).

Definition plainPair (kv : string * string) : Prop :=
  plainKey (fst kv) /\ plainText (snd kv).




(** * Properties *)

(** ** Characters and strings *)

Lemma escaped_char (c : ascii) :
  isEscapeCharacter c = true ->
  RegExp.isIdentityEscape c = true /\ Ascii.eqb c "*" = false.
Proof.
  destruct c as [[] [] [] [] [] [] [] []]; vm_compute; intros H;
    first [ discriminate H | split; reflexivity ].
Qed.

Lemma plain_char (c : ascii) :
  isEscapeCharacter c = false ->
  Ascii.eqb c "*" = false ->
  Ascii.eqb c "\" = false /\ Ascii.eqb c "." = false /\
  RegExp.isSyntaxCharacter c = false.
Proof.
  destruct c as [[] [] [] [] [] [] [] []]; vm_compute; intros H1 H2;
    first [ discriminate H1 | discriminate H2 | repeat split ].
Qed.

Lemma append_empty_r (a : string) : a +:+ "" = a.
Proof. induction a as [|x a IH]; simpl; [reflexivity | now rewrite IH]. Qed.

Lemma startsWith_spec (p s : string) :
  Str.startsWith p s = true <-> exists t, s = p +:+ t.
Proof.
  revert s. induction p as [|a p IH]; intros s; simpl.
  - split; [intros _; now exists s | reflexivity].
  - destruct s as [|b s].
    + split; [discriminate | intros [t Ht]; discriminate Ht].
    + rewrite andb_true_iff, Ascii.eqb_eq, IH. split.
      * intros [-> [t ->]]. now exists t.
      * intros [t Ht]. injection Ht as -> ->. split; [reflexivity | now exists t].
Qed.

(** A value with a [*] splits at its first [*]. *)
Lemma first_star (v : string) :
  isGlobValue v = true ->
  exists p q, v = p +:+ String "*" q /\ isGlobValue p = false.
Proof.
  unfold isGlobValue. induction v as [|c v IH]; simpl; [discriminate|].
  destruct (Ascii.eqb "*" c) eqn:E; simpl.
  - intros _. apply Ascii.eqb_eq in E. subst c. now exists "", v.
  - intros H. destruct (IH H) as (p & q & -> & Hp).
    exists (String c p), q. simpl. now rewrite E.
Qed.

(** ** The text handed to [new RegExp] *)

Lemma escapeRegex_app (p q : string) :
  escapeRegex (p +:+ q) = escapeRegex p +:+ escapeRegex q.
Proof.
  induction p as [|c p IH]; simpl; [reflexivity|].
  rewrite IH. now destruct (isEscapeCharacter c).
Qed.

Lemma escapeRegex_star (q : string) :
  escapeRegex (String "*" q) = String "*" (escapeRegex q).
Proof. reflexivity. Qed.

Lemma replaceFirstStar_escaped (p r : string) :
  isGlobValue p = false ->
  replaceFirstStar (escapeRegex p +:+ r) = escapeRegex p +:+ replaceFirstStar r.
Proof.
  unfold isGlobValue. induction p as [|c p IH]; simpl; [reflexivity|].
  intros H. apply orb_false_iff in H as [Hc Hp].
  rewrite Ascii.eqb_sym in Hc.
  destruct (isEscapeCharacter c); simpl; rewrite Hc, (IH Hp); reflexivity.
Qed.

Lemma parseGlobSource_split (p q : string) :
  isGlobValue p = false ->
  parseGlobSource (p +:+ String "*" q) =
  String "^" (escapeRegex p +:+ String "." (String "*" (escapeRegex q))).
Proof.
  intros Hp. unfold parseGlobSource.
  rewrite escapeRegex_app, escapeRegex_star, (replaceFirstStar_escaped _ _ Hp).
  reflexivity.
Qed.

(** ** Parsing the escaped text *)

Lemma quantified_no_star parse a r :
  Str.headIs "*" r = false ->
  RegExp.quantified parse a r = RegExp.consTerm (RegExp.Once a) (parse r).
Proof.
  destruct r as [|d r]; simpl; [reflexivity|].
  rewrite Ascii.eqb_sym. now intros ->.
Qed.

Lemma headIs_escapeRegex (r : string) :
  Str.headIs "*" (escapeRegex r) = Str.headIs "*" r.
Proof.
  destruct r as [|d r]; simpl; [reflexivity|].
  destruct (isEscapeCharacter d) eqn:E; simpl; [|reflexivity].
  apply escaped_char in E as [_ E]. now rewrite (Ascii.eqb_sym "*" d), E.
Qed.

(** One step of the parser on escaped text, read off the value itself. *)
Lemma parseTerms_escaped (w : string) (c : ascii) (r tail : string) :
  RegExp.parseTerms w (escapeRegex (String c r) +:+ tail) =
  if Ascii.eqb c "*" then Throw (RegExpSyntaxError w)
  else RegExp.quantified (RegExp.parseTerms w) (RegExp.Literal c) (escapeRegex r +:+ tail).
Proof.
  cbn [escapeRegex].
  destruct (isEscapeCharacter c) eqn:E.
  - apply escaped_char in E as [E1 E2]. rewrite E2.
    cbn [append RegExp.parseTerms]. now rewrite E1.
  - destruct (Ascii.eqb c "*") eqn:Es.
    + apply Ascii.eqb_eq in Es. subst c. reflexivity.
    + destruct (plain_char c E Es) as (E1 & E2 & E3).
      cbn [append RegExp.parseTerms]. now rewrite E1, Es, E2, E3.
Qed.

Lemma parseTerms_literals (w p r : string) :
  isGlobValue p = false ->
  Str.headIs "*" r = false ->
  RegExp.parseTerms w (escapeRegex p +:+ r) = prepend (literals p) (RegExp.parseTerms w r).
Proof.
  intros Hp Hr. unfold isGlobValue in Hp.
  induction p as [|c p IH].
  - simpl. unfold prepend. now destruct (RegExp.parseTerms w r).
  - simpl in Hp. apply orb_false_iff in Hp as [Hc Hp].
    rewrite parseTerms_escaped. rewrite Ascii.eqb_sym in Hc. rewrite Hc.
    rewrite quantified_no_star.
    + rewrite (IH Hp). unfold prepend, RegExp.consTerm.
      now destruct (RegExp.parseTerms w r).
    + destruct p as [|d p]; [exact Hr|].
      simpl in Hp. apply orb_false_iff in Hp as [Hd _].
      change (escapeRegex (String d p) +:+ r) with
        ((if isEscapeCharacter d
          then String "\" (String d (escapeRegex p))
          else String d (escapeRegex p)) +:+ r).
      destruct (isEscapeCharacter d); simpl; [reflexivity | exact Hd].
Qed.

Lemma parseTerms_escaped_value (w : string) (c : ascii) (r : string) :
  RegExp.parseTerms w (escapeRegex (String c r)) =
  if Ascii.eqb c "*" then Throw (RegExpSyntaxError w)
  else RegExp.quantified (RegExp.parseTerms w) (RegExp.Literal c) (escapeRegex r).
Proof.
  rewrite <- (append_empty_r (escapeRegex (String c r))), parseTerms_escaped.
  now rewrite append_empty_r.
Qed.

Lemma quantified_escaped (w : string) (a : RegExp.Atom) (r : string) :
  RegExp.quantified (RegExp.parseTerms w) a (escapeRegex r) =
  match r with
  | String d r' =>
      if Ascii.eqb d "*"
      then RegExp.consTerm (RegExp.Star a) (RegExp.parseTerms w (escapeRegex r'))
      else RegExp.consTerm (RegExp.Once a) (RegExp.parseTerms w (escapeRegex r))
  | EmptyString => Normal [RegExp.Once a]
  end.
Proof.
  destruct r as [|d r']; [reflexivity|].
  destruct (Ascii.eqb d "*") eqn:E.
  - apply Ascii.eqb_eq in E. subst d. reflexivity.
  - apply quantified_no_star. rewrite headIs_escapeRegex. simpl.
    now rewrite Ascii.eqb_sym.
Qed.

Lemma parsedOrSyntaxError_consTerm w t r :
  parsedOrSyntaxError w r -> parsedOrSyntaxError w (RegExp.consTerm t r).
Proof.
  intros [[re ->] | ->]; [left; now exists (t :: re) | now right].
Qed.

Lemma parsedOrSyntaxError_prepend w l r :
  parsedOrSyntaxError w r -> parsedOrSyntaxError w (prepend l r).
Proof.
  intros [[re ->] | ->]; [left; now exists (l ++ re) | now right].
Qed.

(** Escaped text never leaves the fragment of the model. *)
Lemma parseTerms_escaped_total (w v : string) :
  parsedOrSyntaxError w (RegExp.parseTerms w (escapeRegex v)).
Proof.
  remember (String.length v) as n eqn:Hn.
  assert (Hle : String.length v <= n) by lia. clear Hn.
  revert v Hle. induction n as [|n IH]; intros v Hle.
  - destruct v; [left; now exists [] | simpl in Hle; lia].
  - destruct v as [|c r]; [left; now exists []|].
    simpl in Hle. rewrite parseTerms_escaped_value.
    destruct (Ascii.eqb c "*"); [now right|].
    rewrite quantified_escaped.
    destruct r as [|d r']; [left; now eexists|].
    simpl in Hle.
    destruct (Ascii.eqb d "*"); apply parsedOrSyntaxError_consTerm, IH; simpl; lia.
Qed.

(** Without a leading [*] and without two adjacent [*] the parse succeeds. *)
Lemma parseTerms_escaped_ok (w v : string) :
  Str.headIs "*" v = false ->
  Str.hasDouble "*" v = false ->
  exists re, RegExp.parseTerms w (escapeRegex v) = Normal re.
Proof.
  remember (String.length v) as n eqn:Hn.
  assert (Hle : String.length v <= n) by lia. clear Hn.
  revert v Hle. induction n as [|n IH]; intros v Hle Hh Hd.
  - destruct v; [now exists [] | simpl in Hle; lia].
  - destruct v as [|c r]; [now exists []|].
    simpl in Hle, Hh, Hd. rewrite parseTerms_escaped_value.
    rewrite Ascii.eqb_sym in Hh. rewrite Hh.
    rewrite quantified_escaped.
    destruct r as [|d r']; [now eexists|].
    apply orb_false_iff in Hd as [Hcd Hd].
    rewrite (Ascii.eqb_sym "*" c), Hh in Hcd. simpl in Hcd, Hd, Hle.
    apply orb_false_iff in Hd as [Hd1 Hd2].
    destruct (Ascii.eqb d "*") eqn:Ed.
    + rewrite (Ascii.eqb_sym "*" d), Ed in Hd1. simpl in Hd1.
      destruct (IH r') as [re Hre]; [lia | exact Hd1 | exact Hd2 |].
      rewrite Hre. now eexists.
    + destruct (IH (String d r')) as [re Hre].
      * simpl; lia.
      * simpl. now rewrite Ascii.eqb_sym.
      * simpl. now rewrite Hd1, Hd2.
      * rewrite Hre. now eexists.
Qed.

(** ** What [parseGlob] compiles *)

Lemma parseTerms_dot_star (w rest : string) :
  RegExp.parseTerms w (String "." (String "*" rest)) =
  RegExp.consTerm (RegExp.Star RegExp.AnyChar) (RegExp.parseTerms w rest).
Proof. reflexivity. Qed.

Lemma parseGlob_split (p q : string) :
  isGlobValue p = false ->
  parseGlob (p +:+ String "*" q) =
  prepend (literals p)
    (RegExp.consTerm (RegExp.Star RegExp.AnyChar)
       (RegExp.parseTerms (parseGlobSource (p +:+ String "*" q)) (escapeRegex q))).
Proof.
  intros Hp. unfold parseGlob.
  set (w := parseGlobSource (p +:+ String "*" q)).
  assert (Hw : w = String "^" (escapeRegex p +:+ String "." (String "*" (escapeRegex q))))
    by (apply parseGlobSource_split, Hp).
  rewrite Hw at 1. change (RegExp.new (String "^" ?s)) with (RegExp.parseTerms (String "^" s) s).
  rewrite <- Hw.
  rewrite (parseTerms_literals w p _ Hp); [|reflexivity].
  now rewrite parseTerms_dot_star.
Qed.

Lemma hasDouble_split (p q : string) :
  Str.hasDouble "*" (p +:+ String "*" q) = false ->
  Str.headIs "*" q = false /\ Str.hasDouble "*" q = false.
Proof.
  induction p as [|c p IH]; simpl.
  - intros H. now apply orb_false_iff in H.
  - intros H. apply orb_false_iff in H as [_ H]. auto.
Qed.

(** A glob without two adjacent [*] compiles. *)
Lemma parseGlob_ok (v : string) :
  isGlobValue v = true ->
  Str.hasDouble "*" v = false ->
  exists re, parseGlob v = Normal re.
Proof.
  intros Hg Hd. destruct (first_star v Hg) as (p & q & -> & Hp).
  rewrite (parseGlob_split p q Hp).
  destruct (hasDouble_split p q Hd) as [Hq1 Hq2].
  destruct (parseTerms_escaped_ok (parseGlobSource (p +:+ String "*" q)) q Hq1 Hq2)
    as [re ->].
  now eexists.
Qed.

(** Compiling a glob gives a pattern or the syntax error of [new RegExp]. *)
Lemma parseGlob_total (v : string) :
  isGlobValue v = true ->
  parsedOrSyntaxError (parseGlobSource v) (parseGlob v).
Proof.
  intros Hg. destruct (first_star v Hg) as (p & q & -> & Hp).
  rewrite (parseGlob_split p q Hp).
  apply parsedOrSyntaxError_prepend, parsedOrSyntaxError_consTerm,
    parseTerms_escaped_total.
Qed.

(** ** Matching against a compiled pattern *)

Lemma matchPrefix_star (a : RegExp.Atom) (re : RegExp.Pattern) (s : string) :
  RegExp.matchPrefix (RegExp.Star a :: re) s =
  RegExp.matchPrefix re s ||
  match s with
  | String c s' => RegExp.atomMatches a c && RegExp.matchPrefix (RegExp.Star a :: re) s'
  | EmptyString => false
  end.
Proof. destruct s; reflexivity. Qed.

Lemma matchPrefix_literals (p : string) (re : RegExp.Pattern) (s : string) :
  RegExp.matchPrefix (literals p ++ re) s = true <->
  exists t, s = p +:+ t /\ RegExp.matchPrefix re t = true.
Proof.
  revert s. induction p as [|c p IH]; intros s.
  - simpl. split; [intros H; now exists s | now intros (t & -> & H)].
  - change (literals (String c p) ++ re)
      with (RegExp.Once (RegExp.Literal c) :: (literals p ++ re)).
    destruct s as [|d s]; simpl.
    + split; [discriminate | intros (t & Ht & _); discriminate Ht].
    + rewrite andb_true_iff, Ascii.eqb_eq, IH. split.
      * intros [-> (t & -> & H)]. now exists t.
      * intros (t & Ht & H). injection Ht as -> ->. split; [reflexivity | now exists t].
Qed.

(** No anchor at the end: what follows a match is not looked at. *)
Lemma matchPrefix_extend (re : RegExp.Pattern) (s t : string) :
  RegExp.matchPrefix re s = true -> RegExp.matchPrefix re (s +:+ t) = true.
Proof.
  revert s. induction re as [|[a|a] re IH]; intros s.
  - reflexivity.
  - destruct s as [|c s]; simpl; [discriminate|].
    rewrite !andb_true_iff. intros [-> H]. auto.
  - induction s as [|c s IHs]; intros H; rewrite matchPrefix_star in H.
    + rewrite orb_false_r in H. apply (IH "") in H.
      change ("" +:+ t) with t in *.
      rewrite matchPrefix_star, H. reflexivity.
    + change (String c s +:+ t) with (String c (s +:+ t)).
      rewrite matchPrefix_star.
      apply orb_true_iff in H as [H | H].
      * apply (IH (String c s)) in H. simpl in H. now rewrite H.
      * apply andb_true_iff in H as [Hc H]. rewrite Hc, (IHs H). apply orb_true_r.
Qed.

Lemma matchPrefix_any (re : RegExp.Pattern) (s : string) :
  RegExp.matchPrefix re s = true ->
  RegExp.matchPrefix (RegExp.Star RegExp.AnyChar :: re) s = true.
Proof. intros H. rewrite matchPrefix_star, H. reflexivity. Qed.

Lemma syntax_characters_escaped (c : ascii) :
  RegExp.isSyntaxCharacter c = true -> c <> "*"%char -> isEscapeCharacter c = true.
Proof.
  destruct c as [[] [] [] [] [] [] [] []]; vm_compute; intros H1 H2;
    first [ reflexivity | discriminate H1 | now contradiction H2 ].
Qed.

Lemma parseGlob_split_shape (p q : string) (re : RegExp.Pattern) :
  isGlobValue p = false ->
  parseGlob (p +:+ String "*" q) = Normal re ->
  exists rest, re = literals p ++ RegExp.Star RegExp.AnyChar :: rest.
Proof.
  intros Hp. rewrite (parseGlob_split p q Hp).
  destruct (RegExp.parseTerms _ (escapeRegex q)) as [rest|e]; simpl; [|discriminate].
  intros [= <-]. now exists rest.
Qed.

Lemma parseGlob_trailing_star (p : string) :
  isGlobValue p = false ->
  parseGlob (p +:+ "*") = Normal (literals p ++ [RegExp.Star RegExp.AnyChar]).
Proof. intros Hp. now rewrite (parseGlob_split p "" Hp). Qed.

Lemma test_trailing_star (p s : string) :
  RegExp.test (literals p ++ [RegExp.Star RegExp.AnyChar]) (Some s) = Str.startsWith p s.
Proof.
  apply Bool.eq_true_iff_eq. unfold RegExp.test.
  rewrite matchPrefix_literals, startsWith_spec.
  split; [intros (t & -> & _); now exists t | intros [t ->]].
  exists t. split; [reflexivity | now apply matchPrefix_any].
Qed.

(** C3.  Every pattern-value with a [*] splits at its first [*] into [p]
    and [q]; the text compiled is [^], [p] with every regex syntax character
    escaped, [.*], and [q] escaped; the compiled pattern is the characters of
    [p] taken literally followed by any characters; a value it accepts
    starts with [p], and stays accepted whatever is appended to it; the
    glob compiles when it has no two adjacent [*]; with nothing after the
    [*] it accepts exactly the values that start with [p].
    The glob [/files/*] accepts [/files/readme.txt] and [/files/]. *)
Theorem parseGlob_prefix_match :
  (forall v : string, isGlobValue v = true ->
     exists p q,
       v = p +:+ String "*" q /\ isGlobValue p = false /\
       parseGlobSource v =
         String "^" (escapeRegex p +:+ String "." (String "*" (escapeRegex q))) /\
       (forall re, parseGlob v = Normal re ->
          (exists rest, re = literals p ++ RegExp.Star RegExp.AnyChar :: rest) /\
          (forall s, RegExp.test re (Some s) = true -> Str.startsWith p s = true) /\
          (forall s t, RegExp.test re (Some s) = true ->
                       RegExp.test re (Some (s +:+ t)) = true)) /\
       (Str.hasDouble "*" v = false -> exists re, parseGlob v = Normal re) /\
       (q = "" ->
          exists re, parseGlob v = Normal re /\
                     forall s, RegExp.test re (Some s) = Str.startsWith p s)) /\
  (forall c, RegExp.isSyntaxCharacter c = true -> c <> "*"%char ->
             escapeRegex (String c "") = String "\" (String c "")) /\
  escapeRegex "*" = "*" /\
  matchKey "path" "/files/*" [("path", "/files/readme.txt")] = Normal true /\
  matchKey "path" "/files/*" [("path", "/files/")] = Normal true.
Proof.
  split; [|split; [|repeat split]].
  - intros v Hg. destruct (first_star v Hg) as (p & q & -> & Hp).
    exists p, q. split; [reflexivity|]. split; [exact Hp|].
    split; [now apply parseGlobSource_split|]. split.
    + intros re Hre. destruct (parseGlob_split_shape p q re Hp Hre) as [rest ->].
      split; [now exists rest|]. split.
      * intros s Hs. unfold RegExp.test in Hs.
        apply matchPrefix_literals in Hs as (t & -> & _).
        apply startsWith_spec. now exists t.
      * intros s t. unfold RegExp.test. apply matchPrefix_extend.
    + split; [now apply parseGlob_ok|].
      intros ->. exists (literals p ++ [RegExp.Star RegExp.AnyChar]).
      split; [now apply parseGlob_trailing_star | apply test_trailing_star].
  - intros c Hc Hne. simpl. now rewrite (syntax_characters_escaped c Hc Hne).
Qed.

Lemma parseGlob_prefix_match_witness :
  isGlobValue "/files/*" = true /\
  exists p q,
    "/files/*" = p +:+ String "*" q /\ isGlobValue p = false /\
    parseGlobSource "/files/*" =
      String "^" (escapeRegex p +:+ String "." (String "*" (escapeRegex q))).
Proof.
  split; [reflexivity|].
  destruct (proj1 parseGlob_prefix_match "/files/*" eq_refl) as (p & q & H1 & H2 & H3 & _).
  exists p, q. repeat split; assumption.
Defined.







(** ** [findRules] *)

Lemma bindC_normal {A B} (m : Completion A) (k : A -> Completion B) (b : B) :
  bindC m k = Normal b -> exists a, m = Normal a /\ k a = Normal b.
Proof. destruct m as [a|e]; simpl; [eauto | discriminate]. Qed.

(** The array built so far is only appended to. *)
Lemma findRulesFrom_result (rs : list Rule.t) (operation : Operation) (result : list Rule.t) :
  findRulesFrom rs operation result =
  let* found := findRulesFrom rs operation [] in Normal (result ++ found).
Proof.
  revert result. induction rs as [|rule rest IH]; intros result; simpl.
  - now rewrite app_nil_r.
  - destruct (truthy (Rule.matchPolicy rule)); simpl; [|reflexivity].
    destruct (matchKeys (Rule.operation rule) operation) as [[|]|e]; simpl;
      [|apply IH|reflexivity].
    destruct (Rule.isStop rule); [reflexivity|].
    rewrite (IH (result ++ [rule])), (IH [rule]).
    destruct (findRulesFrom rest operation []); simpl; [|reflexivity].
    now rewrite <- app_assoc.
Qed.

(** One turn of the loop of [findRules]. *)
Lemma findRulesFrom_cons (rule : Rule.t) (rest : list Rule.t) (operation : Operation) :
  findRulesFrom (rule :: rest) operation [] =
  if negb (truthy (Rule.matchPolicy rule)) then Throw BugNoMatchPolicy
  else
    let* matched := matchKeys (Rule.operation rule) operation in
    if matched then
      if Rule.isStop rule then Normal [rule]
      else let* found := findRulesFrom rest operation [] in Normal (rule :: found)
    else findRulesFrom rest operation [].
Proof.
  simpl. destruct (truthy (Rule.matchPolicy rule)); simpl; [|reflexivity].
  destruct (matchKeys (Rule.operation rule) operation) as [[|]|e]; simpl; try reflexivity.
  destruct (Rule.isStop rule); [reflexivity|].
  now rewrite findRulesFrom_result.
Qed.

Lemma policy_stop (rule : Rule.t) :
  Rule.matchPolicy rule = Some MATCH_POLICY_STOP ->
  Rule.isStop rule = true /\ truthy (Rule.matchPolicy rule) = true.
Proof. unfold Rule.isStop. intros ->. split; reflexivity. Qed.

Lemma policy_canary (rule : Rule.t) :
  Rule.matchPolicy rule = Some MATCH_POLICY_CANARY ->
  Rule.isStop rule = false /\ truthy (Rule.matchPolicy rule) = true.
Proof. unfold Rule.isStop. intros ->. split; reflexivity. Qed.

(** C5.  When a canary rule [A] and the stop rule [B] after it both match,
    the result is [A; B] whatever rules follow [B] (rules that throw when
    evaluated included, so none of them is evaluated); when a stop rule [A]
    matches, the result is [A] alone whatever follows it. *)
Theorem canary_accumulates_stop_ends (A B : Rule.t) (rest : list Rule.t)
    (labels : gset string) (operation : Operation) :
  matchKeys (Rule.operation A) operation = Normal true ->
  matchKeys (Rule.operation B) operation = Normal true ->
  Rule.matchPolicy B = Some MATCH_POLICY_STOP ->
  (Rule.matchPolicy A = Some MATCH_POLICY_CANARY ->
   findRules {| rules := A :: B :: rest; ruleLabels := labels |} operation =
     Normal [A; B]) /\
  (Rule.matchPolicy A = Some MATCH_POLICY_STOP ->
   findRules {| rules := [A; B]; ruleLabels := labels |} operation = Normal [A] /\
   findRules {| rules := A :: B :: rest; ruleLabels := labels |} operation =
     Normal [A]).
Proof.
  intros HA HB PB. destruct (policy_stop B PB) as [SB TB].
  unfold findRules. cbn [rules]. split.
  - intros PA. destruct (policy_canary A PA) as [SA TA].
    rewrite findRulesFrom_cons, TA, HA. cbn [bindC negb]. rewrite SA.
    rewrite findRulesFrom_cons, TB, HB. cbn [bindC negb]. now rewrite SB.
  - intros PA. destruct (policy_stop A PA) as [SA TA].
    rewrite !findRulesFrom_cons, TA, HA. cbn [bindC negb]. now rewrite SA.
Qed.

Lemma canary_accumulates_stop_ends_witness :
  findRules {| rules := [canaryForX; stopForAll; brokenGlob]; ruleLabels := ∅ |}
            [("op", "x")] = Normal [canaryForX; stopForAll].
Proof.
  apply (proj1 (canary_accumulates_stop_ends canaryForX stopForAll [brokenGlob] ∅
                  [("op", "x")] eq_refl eq_refl eq_refl)).
  reflexivity.
Defined.

(** *** When the evaluation of a rule throws *)

Lemma matchKey_throws (k v : string) (operation : Operation) (e : Error) :
  matchKey k v operation = Throw e -> exists source, e = RegExpSyntaxError source.
Proof.
  unfold matchKey. destruct (String.eqb v "*"); [discriminate|].
  destruct (isGlobValue v) eqn:Hg.
  - destruct (parseGlob_total v Hg) as [[re ->] | ->]; simpl; [discriminate|].
    intros [= <-]. now eexists.
  - destruct (get operation k); discriminate.
Qed.

Lemma matchKeys_throws (pattern operation : Operation) (e : Error) :
  matchKeys pattern operation = Throw e -> exists source, e = RegExpSyntaxError source.
Proof.
  induction pattern as [|[k v] rest IH]; simpl; [discriminate|].
  destruct (matchKey k v operation) as [[|]|e'] eqn:E; simpl.
  - exact IH.
  - discriminate.
  - intros [= <-]. eapply matchKey_throws, E.
Qed.

Lemma matchKey_returns (k v : string) (operation : Operation) :
  Str.hasDouble "*" v = false -> exists b, matchKey k v operation = Normal b.
Proof.
  intros Hd. unfold matchKey. destruct (String.eqb v "*"); [now eexists|].
  destruct (isGlobValue v) eqn:Hg.
  - destruct (parseGlob_ok v Hg Hd) as [re ->]. simpl. now eexists.
  - destruct (get operation k); now eexists.
Qed.

Lemma matchKeys_returns (pattern operation : Operation) :
  noDoubleStar pattern -> exists b, matchKeys pattern operation = Normal b.
Proof.
  induction 1 as [|[k v] rest Hv _ IH]; simpl; [now eexists|].
  destruct (matchKey_returns k v operation Hv) as [[|] ->]; simpl; [exact IH | now eexists].
Qed.

Lemma findRulesFrom_returns (rs : list Rule.t) (operation : Operation) :
  Forall evaluable rs -> exists found, findRulesFrom rs operation [] = Normal found.
Proof.
  induction 1 as [|rule rest [Hp Hd] _ IH]; [now eexists|].
  rewrite findRulesFrom_cons, Hp. cbn [negb].
  destruct (matchKeys_returns _ operation Hd) as [[|] ->]; cbn [bindC]; [|exact IH].
  destruct (Rule.isStop rule); [now eexists|].
  destruct IH as [found ->]. now eexists.
Qed.

Lemma isDefault_matches (rule : Rule.t) (operation : Operation) :
  Rule.isDefault rule = true -> matchKeys (Rule.operation rule) operation = Normal true.
Proof. unfold Rule.isDefault. now destruct (Rule.operation rule). Qed.

(** When a stop rule of the list matches, a result holds a stop rule. *)
Lemma findRulesFrom_finds_stop (rs : list Rule.t) (operation : Operation)
    (rule : Rule.t) (found : list Rule.t) :
  In rule rs -> Rule.isStop rule = true ->
  matchKeys (Rule.operation rule) operation = Normal true ->
  findRulesFrom rs operation [] = Normal found ->
  exists masking, List.find Rule.isStop found = Some masking /\ In masking rs.
Proof.
  intros Hin Hs Hm. revert found.
  induction rs as [|r rest IH]; intros found; [destruct Hin|].
  rewrite findRulesFrom_cons.
  destruct (truthy (Rule.matchPolicy r)); cbn [negb]; [|discriminate].
  assert (Hrest : forall found', In rule rest ->
            findRulesFrom rest operation [] = Normal found' ->
            exists masking, List.find Rule.isStop found' = Some masking /\ In masking (r :: rest)).
  { intros found' Hin' Hf. destruct (IH Hin' found' Hf) as (m & Hm1 & Hm2).
    exists m. split; [exact Hm1 | now right]. }
  destruct (matchKeys (Rule.operation r) operation) as [[|]|e] eqn:E; cbn [bindC].
  - destruct (Rule.isStop r) eqn:Er.
    + intros [= <-]. exists r. simpl. rewrite Er. split; [reflexivity | now left].
    + destruct Hin as [-> | Hin]; [congruence|].
      intros Hf. apply bindC_normal in Hf as (found' & Hf & [= <-]).
      destruct (Hrest found' Hin Hf) as (m & Hm1 & Hm2).
      exists m. simpl. now rewrite Er.
  - destruct Hin as [-> | Hin]; [congruence|]. intros Hf. now apply Hrest.
  - discriminate.
Qed.

Lemma find_some_nonempty {A} (f : A -> bool) (l : list A) (x : A) :
  List.find f l = Some x -> l <> [].
Proof. now destruct l. Qed.

(** C4, as the code has it.  When every rule has a match policy and no
    pattern-value has two adjacent [*], and the last rule has an empty
    pattern and the policy [stop], [findRules] returns a sequence that is
    not empty, for every operation.  Whatever the rules before such a last
    rule are, [findRules] does not return the empty sequence. *)
Theorem findRules_nonempty_with_default (rs : list Rule.t) (lastRule : Rule.t)
    (labels : gset string) (operation : Operation) :
  Rule.isDefault lastRule = true ->
  Rule.matchPolicy lastRule = Some MATCH_POLICY_STOP ->
  (Forall evaluable rs ->
   exists found,
     findRules {| rules := rs ++ [lastRule]; ruleLabels := labels |} operation =
       Normal found /\ found <> []) /\
  findRules {| rules := rs ++ [lastRule]; ruleLabels := labels |} operation <> Normal [].
Proof.
  intros Hd Hp. destruct (policy_stop lastRule Hp) as [Hs Ht].
  assert (Hne : forall found,
            findRulesFrom (rs ++ [lastRule]) operation [] = Normal found -> found <> []).
  { intros found Hf.
    destruct (findRulesFrom_finds_stop (rs ++ [lastRule]) operation lastRule found)
      as (m & Hm & _); auto using isDefault_matches.
    - apply in_or_app. right. now left.
    - eapply find_some_nonempty, Hm. }
  unfold findRules. cbn [rules]. split.
  - intros Hrs.
    destruct (findRulesFrom_returns (rs ++ [lastRule]) operation) as [found Hf].
    + apply Forall_app. split; [exact Hrs|].
      constructor; [|constructor]. split; [exact Ht|].
      unfold noDoubleStar. unfold Rule.isDefault in Hd.
      destruct (Rule.operation lastRule); [constructor | discriminate].
    + exists found. split; [exact Hf | now apply Hne].
  - intros Hf. now apply (Hne [] Hf).
Qed.

Lemma findRules_nonempty_with_default_witness :
  exists found,
    findRules {| rules := [canaryForX] ++ [stopForAll]; ruleLabels := ∅ |} [("op", "y")] =
      Normal found /\ found <> [].
Proof.
  apply (proj1 (findRules_nonempty_with_default [canaryForX] stopForAll ∅ [("op", "y")]
                  eq_refl eq_refl)).
  repeat constructor.
Defined.

(** ** [addRule] *)

Lemma checkLabel_rules (label : option string) (this : Config) :
  rules (snd (checkLabel label this)) = rules this.
Proof.
  unfold checkLabel. destruct label as [l|]; [|reflexivity].
  destruct (negb (truthy (Some l))); [reflexivity|].
  destruct (negb (RULE_LABEL_REGEX_test l)); [reflexivity|].
  now destruct (bool_decide (l ∈ ruleLabels this)).
Qed.

(** What a call of [addRule] that returns has checked and done. *)
Lemma addRule_returns (arg : Raw.t) (this this' : Config) (u : unit) :
  addRule arg this = (Normal u, this') ->
  exists operation found,
    Raw.operation arg = Some operation /\
    findRules this operation = Normal found /\
    List.find Rule.isStop found = None /\
    invalidCreditLimit (Raw.creditLimit arg) = false /\
    invalidResetSeconds (Raw.creditLimit arg) (Raw.resetSeconds arg) = false /\
    checkMatchPolicy (Raw.matchPolicy arg) = Normal () /\
    (exists u', checkLabel (Raw.label arg) this =
                (Normal u', {| rules := rules this; ruleLabels := ruleLabels this' |})) /\
    rules this' = rules this ++ [makeRule operation arg].
Proof.
  unfold addRule. destruct (Raw.operation arg) as [operation|] eqn:E1; [|discriminate].
  destruct (findRules this operation) as [found|e] eqn:E2; [|discriminate].
  destruct (List.find Rule.isStop found) eqn:E3; [discriminate|].
  destruct (invalidCreditLimit _) eqn:E4; [discriminate|].
  destruct (invalidResetSeconds _ _) eqn:E5; [discriminate|].
  pose proof (checkLabel_rules (Raw.label arg) this) as Hr.
  destruct (checkLabel (Raw.label arg) this) as [[u'|e] mid] eqn:E6; [|discriminate].
  destruct (checkMatchPolicy (Raw.matchPolicy arg)) as [[]|e] eqn:E7; [|discriminate].
  intros [= <- <-]. exists operation, found. simpl in Hr |- *.
  do 6 (split; [assumption || reflexivity|]). split; [|now rewrite Hr].
  exists u'. destruct mid as [r l]. simpl in Hr. now subst r.
Qed.

(** A call of [addRule] that throws leaves the rules as they were. *)
Lemma addRule_throws (arg : Raw.t) (this this' : Config) (e : Error) :
  addRule arg this = (Throw e, this') -> rules this' = rules this.
Proof.
  unfold addRule. destruct (Raw.operation arg) as [operation|]; [|now intros [= <- <-]].
  destruct (findRules this operation) as [found|e']; [|now intros [= <- <-]].
  destruct (List.find Rule.isStop found); [now intros [= <- <-]|].
  destruct (invalidCreditLimit _); [now intros [= <- <-]|].
  destruct (invalidResetSeconds _ _); [now intros [= <- <-]|].
  pose proof (checkLabel_rules (Raw.label arg) this) as Hr.
  destruct (checkLabel (Raw.label arg) this) as [[u'|e'] mid];
    [|intros [= <- <-]; exact Hr].
  destruct (checkMatchPolicy (Raw.matchPolicy arg)) as [[]|e']; [discriminate|].
  intros [= <- <-]. exact Hr.
Qed.

Lemma makeRule_policy (operation : Operation) (arg : Raw.t) :
  truthy (Rule.matchPolicy (makeRule operation arg)) = true /\
  (truthy (Raw.matchPolicy arg) = false ->
   Rule.matchPolicy (makeRule operation arg) = Some MATCH_POLICY_STOP).
Proof.
  unfold makeRule. simpl. destruct (truthy (Raw.matchPolicy arg)) eqn:E.
  - split; [exact E | discriminate].
  - split; reflexivity.
Qed.

Lemma addRule_cases (arg : Raw.t) (this : Config) :
  rules (snd (addRule arg this)) = rules this \/
  exists operation found,
    Raw.operation arg = Some operation /\
    findRules this operation = Normal found /\
    List.find Rule.isStop found = None /\
    rules (snd (addRule arg this)) = rules this ++ [makeRule operation arg].
Proof.
  destruct (addRule arg this) as [[u|e] this'] eqn:E.
  - right. destruct (addRule_returns _ _ _ _ E) as (op & found & H1 & H2 & H3 & _ & _ & _ & _ & H4).
    exists op, found. auto.
  - left. eapply addRule_throws, E.
Qed.

Lemma Built_policies (this : Config) :
  Built this -> Forall (fun rule => truthy (Rule.matchPolicy rule) = true) (rules this).
Proof.
  induction 1 as [|arg this _ IH]; [constructor|].
  destruct (addRule_cases arg this) as [-> | (op & found & _ & _ & _ & ->)]; [exact IH|].
  apply Forall_app. split; [exact IH|].
  constructor; [apply makeRule_policy | constructor].
Qed.

Lemma findRulesFrom_no_bug (rs : list Rule.t) (operation : Operation) :
  Forall (fun rule => truthy (Rule.matchPolicy rule) = true) rs ->
  findRulesFrom rs operation [] <> Throw BugNoMatchPolicy.
Proof.
  induction 1 as [|rule rest Hp _ IH]; [discriminate|].
  rewrite findRulesFrom_cons, Hp. cbn [negb].
  destruct (matchKeys (Rule.operation rule) operation) as [[|]|e] eqn:E; cbn [bindC].
  - destruct (Rule.isStop rule); [discriminate|].
    destruct (findRulesFrom rest operation []); [discriminate|].
    simpl. congruence.
  - exact IH.
  - destruct (matchKeys_throws _ _ _ E) as [source ->]. discriminate.
Qed.

(** C10.  A rule that [addRule] appends has a match policy, and it is
    [stop] when the argument had none or an empty one; so in a
    configuration built through [addRule] alone every rule has a match
    policy and [findRules] never throws the error of the rule without a
    match policy. *)
Theorem addRule_sets_match_policy :
  (forall (arg : Raw.t) (this this' : Config),
     addRule arg this = (Normal (), this') ->
     exists rule,
       rules this' = rules this ++ [rule] /\
       truthy (Rule.matchPolicy rule) = true /\
       (truthy (Raw.matchPolicy arg) = false ->
        Rule.matchPolicy rule = Some MATCH_POLICY_STOP)) /\
  (forall this : Config, Built this ->
     Forall (fun rule => truthy (Rule.matchPolicy rule) = true) (rules this) /\
     forall operation, findRules this operation <> Throw BugNoMatchPolicy).
Proof.
  split.
  - intros arg this this' H.
    destruct (addRule_returns _ _ _ _ H) as (op & found & _ & _ & _ & _ & _ & _ & _ & Hr).
    exists (makeRule op arg). split; [exact Hr | apply makeRule_policy].
  - intros this Hb. split; [now apply Built_policies|].
    intros operation. apply findRulesFrom_no_bug, Built_policies, Hb.
Qed.

Lemma addRule_sets_match_policy_witness :
  exists rule,
    rules (snd (addRule defaultDeclaration newConfig)) = rules newConfig ++ [rule] /\
    Rule.matchPolicy rule = Some MATCH_POLICY_STOP.
Proof.
  destruct (proj1 addRule_sets_match_policy defaultDeclaration newConfig
              (snd (addRule defaultDeclaration newConfig)) eq_refl)
    as (rule & H1 & _ & H3).
  exists rule. split; [exact H1 | now apply H3].
Defined.

(** [addRule] on an argument whose pattern a stop rule of the configuration
    matches. *)
Lemma addRule_masked (arg : Raw.t) (this : Config) (operation : Operation) (rule : Rule.t) :
  Raw.operation arg = Some operation ->
  In rule (rules this) -> Rule.isStop rule = true ->
  matchKeys (Rule.operation rule) operation = Normal true ->
  match findRules this operation with
  | Normal found =>
      exists masking,
        List.find Rule.isStop found = Some masking /\ In masking (rules this) /\
        addRule arg this =
          (Throw (UnreachableRule operation (Rule.operation masking)), this)
  | Throw e => addRule arg this = (Throw e, this)
  end.
Proof.
  intros Ho Hin Hs Hm. unfold addRule. rewrite Ho.
  destruct (findRules this operation) as [found|e] eqn:E; [|reflexivity].
  destruct (findRulesFrom_finds_stop _ _ _ _ Hin Hs Hm E) as (masking & Hf & Hi).
  exists masking. rewrite Hf. auto.
Qed.

(** C6.  When a stop rule already in the configuration matches the pattern
    of the new rule taken as an operation, [addRule] throws and appends
    nothing; when the search itself returns, the error is the one of the
    unreachable rule, raised for the first stop rule found.  The text of
    that error does not tell which rule it is: both patterns are printed as
    [[object Object]].  No rule can be added after a stop rule with an empty
    pattern. *)
Theorem addRule_rejects_masked_rule (arg : Raw.t) (this : Config)
    (operation : Operation) (rule : Rule.t) :
  Raw.operation arg = Some operation ->
  In rule (rules this) -> Rule.isStop rule = true ->
  matchKeys (Rule.operation rule) operation = Normal true ->
  (exists e, addRule arg this = (Throw e, this) /\
     forall found, findRules this operation = Normal found ->
       exists masking,
         In masking (rules this) /\ Rule.isStop masking = true /\
         e = UnreachableRule operation (Rule.operation masking) /\
         message e =
           Some "Unreachable rule for operation=[object Object]; masked by operation=[object Object]") /\
  (Rule.isDefault rule = true ->
   forall arg' : Raw.t, exists e, addRule arg' this = (Throw e, this)).
Proof.
  intros Ho Hin Hs Hm. split.
  - pose proof (addRule_masked arg this operation rule Ho Hin Hs Hm) as H.
    destruct (findRules this operation) as [found|e] eqn:E.
    + destruct H as (masking & Hf & Hi & Ha).
      exists (UnreachableRule operation (Rule.operation masking)).
      split; [exact Ha|]. intros found' [= <-].
      exists masking. apply find_some in Hf as [_ Hf]. auto.
    + exists e. split; [exact H | discriminate].
  - intros Hd arg'. destruct (Raw.operation arg') as [operation'|] eqn:Ho'.
    + pose proof (addRule_masked arg' this operation' rule Ho' Hin Hs
                    (isDefault_matches rule operation' Hd)) as H.
      destruct (findRules this operation') as [found|e].
      * destruct H as (masking & _ & _ & Ha). eauto.
      * eauto.
    + exists OperationMissing. unfold addRule. now rewrite Ho'.
Qed.

Lemma addRule_rejects_masked_rule_witness :
  rules configWithDefault = [makeRule [] defaultDeclaration] /\
  exists e,
    addRule declarationForX configWithDefault = (Throw e, configWithDefault) /\
    message e =
      Some "Unreachable rule for operation=[object Object]; masked by operation=[object Object]".
Proof.
  split; [reflexivity|].
  destruct (proj1 (addRule_rejects_masked_rule declarationForX configWithDefault
                     [("op", "x")] (makeRule [] defaultDeclaration)
                     eq_refl (or_introl eq_refl) eq_refl eq_refl))
    as (e & Ha & Hm).
  exists e. split; [exact Ha|].
  destruct (Hm [makeRule [] defaultDeclaration] eq_refl) as (masking & _ & _ & _ & Htext).
  exact Htext.
Defined.

(** ** The default rule of a built configuration *)

Lemma snoc_split {A} (l pre post : list A) (a r : A) :
  l ++ [a] = pre ++ r :: post ->
  (post = [] /\ l = pre /\ a = r) \/
  exists post', post = post' ++ [a] /\ l = pre ++ r :: post'.
Proof.
  destruct post as [|x post _] using rev_ind.
  - intros H. apply app_inj_tail in H as [-> ->]. now left.
  - intros H. right. exists post.
    rewrite app_comm_cons, app_assoc in H.
    apply app_inj_tail in H as [-> ->]. auto.
Qed.

(** In a built configuration nothing follows a stop rule with an empty
    pattern. *)
Lemma Built_default_stop_last (this : Config) :
  Built this ->
  forall pre rule post,
    rules this = pre ++ rule :: post ->
    Rule.isDefault rule = true -> Rule.isStop rule = true -> post = [].
Proof.
  induction 1 as [|arg this _ IH]; intros pre rule post Hr Hd Hs.
  - destruct pre; discriminate Hr.
  - destruct (addRule_cases arg this) as [E | (op & found & _ & Hf & Hn & E)];
      rewrite E in Hr; [eauto|].
    apply snoc_split in Hr as [(-> & _) | (post' & -> & Hr)]; [reflexivity|].
    exfalso.
    destruct (findRulesFrom_finds_stop (rules this) op rule found) as (m & Hm & _);
      auto using isDefault_matches.
    + rewrite Hr. apply in_or_app. right. now left.
    + rewrite Hm in Hn. discriminate Hn.
Qed.

Lemma validate_returns (this : Config) :
  validate this = Normal () ->
  exists pre lastRule, rules this = pre ++ [lastRule] /\ Rule.isDefault lastRule = true.
Proof.
  unfold validate. destruct (rules this) as [|x l _] using rev_ind; [discriminate|].
  rewrite last_snoc. destruct (Rule.isDefault x) eqn:E; [|discriminate].
  intros _. now exists l, x.
Qed.



Lemma addRules_Built (declarations : list Raw.t) (config : Config) :
  Built config -> Built (snd (addRules declarations config)).
Proof.
  revert config. induction declarations as [|rule rest IH]; intros config Hb; [exact Hb|].
  simpl. pose proof (Built_addRule (declaration rule) config Hb) as H.
  destruct (addRule (declaration rule) config) as [[u|e] config']; [|exact H].
  now apply IH.
Qed.

(** What the loaders accept was built through [addRule] and passed
    [validate]. *)
Lemma fromJsonFile_Built (file : Completion RawConfig.t) (this : Config) :
  fromJsonFile file = Normal this -> Built this /\ validate this = Normal ().
Proof.
  unfold fromJsonFile. destruct file as [rawConfig|e]; [|discriminate]. simpl.
  destruct (withDefault _ _) as [declarations|e]; [|discriminate]. simpl.
  pose proof (addRules_Built declarations newConfig Built_new) as Hb.
  destruct (addRules declarations newConfig) as [[u|e] config]; [|discriminate].
  destruct (validate config) as [[]|e] eqn:Hv; [|discriminate].
  intros [= <-]. auto.
Qed.

Lemma processNewRules_Built (file : Completion RawConfig.t)
    (fetched : Completion (list Raw.t)) (config this : Config) :
  processNewRules false file fetched config = (Normal (), this) ->
  Built this /\ validate this = Normal ().
Proof.
  unfold processNewRules. destruct file as [rawConfig|e]; [|discriminate].
  destruct (reloadDeclarations rawConfig fetched) as [declarations|e]; [|discriminate].
  pose proof (addRules_Built declarations newConfig Built_new) as Hb.
  change {| rules := []; ruleLabels := ∅ |} with newConfig.
  destruct (addRules declarations newConfig) as [[u|e] config']; [|discriminate].
  intros [= Hv <-]. auto.
Qed.

(** ** Serialization and loading *)













(** ** The reload cycle *)





(** C2, the claim as written, fails: the loader accepts a file whose
    default declaration has the policy [canary], and a file with an
    empty-pattern canary rule in front of the default; the rule set then has
    a rule with an empty pattern that is not [stop], is not the last, and is
    not the only one. *)


(** C4, the claim as written, fails: the loader accepts the rule
    [{a: "x", b: "y**"}] followed by the default rule, and on the operation
    [{a: "x"}] the search throws the syntax error of [new RegExp("^y.**")]
    and returns nothing; so does a list whose first rule has no match
    policy. *)

Lemma findRules_throws_before_default :
  (exists this lastRule,
     fromJsonFile (Normal {| RawConfig.overrides := Some [doubleStarDeclaration];
                             RawConfig.default := Some defaultDeclaration |}) = Normal this /\
     last (rules this) = Some lastRule /\
     Rule.isDefault lastRule = true /\
     Rule.matchPolicy lastRule = Some MATCH_POLICY_STOP /\
     findRules this [("a", "x")] = Throw (RegExpSyntaxError "^y.**")) /\
  findRules {| rules := [Rule.mk [("a", "x")] (Some 1%Z) (Some 60%Z) None None None None;
                         stopForAll];
               ruleLabels := ∅ |} [("a", "x")] = Throw BugNoMatchPolicy.
Proof.
  split; [|reflexivity].
  eexists _, _. split; [reflexivity|]. repeat split.
Qed.


(** ** What [findRules] can throw *)

(** The search throws nothing but the error of the rule without a match
    policy and the syntax error of a glob; in particular the patterns
    compiled stay inside the fragment of the model. *)
Lemma findRules_throws (this : Config) (operation : Operation) (e : Error) :
  findRules this operation = Throw e ->
  e = BugNoMatchPolicy \/ exists source, e = RegExpSyntaxError source.
Proof.
  unfold findRules. induction (rules this) as [|rule rest IH]; [discriminate|].
  rewrite findRulesFrom_cons.
  destruct (truthy (Rule.matchPolicy rule)); cbn [negb]; [|intros [= <-]; now left].
  destruct (matchKeys (Rule.operation rule) operation) as [[|]|e'] eqn:E; cbn [bindC].
  - destruct (Rule.isStop rule); [discriminate|].
    destruct (findRulesFrom rest operation []) as [found|e'']; [discriminate|].
    simpl. intros [= <-]. now apply IH.
  - exact IH.
  - intros [= <-]. right. eapply matchKeys_throws, E.
Qed.

(** * Further properties of the code *)

(** ** The result of [findRules] *)

Lemma ruleMatches_true (operation : Operation) (rule : Rule.t) :
  ruleMatches operation rule = true <->
  matchKeys (Rule.operation rule) operation = Normal true.
Proof.
  unfold ruleMatches.
  destruct (matchKeys (Rule.operation rule) operation) as [[|]|e];
    split; intros H; try reflexivity; discriminate H.
Qed.

Lemma findRules_result (this : Config) (operation : Operation)
    (found : list Rule.t) :
  findRules this operation = Normal found ->
  (found = List.filter (ruleMatches operation) (rules this) /\
   Forall (fun rule => Rule.isStop rule = false) found) \/
  (exists pre stop post,
     rules this = pre ++ stop :: post /\
     Rule.isStop stop = true /\ ruleMatches operation stop = true /\
     found = List.filter (ruleMatches operation) pre ++ [stop] /\
     Forall (fun rule => Rule.isStop rule = false)
            (List.filter (ruleMatches operation) pre)).
Proof.
  unfold findRules. revert found.
  induction (rules this) as [|rule rest IH]; intros found.
  - intros [= <-]. left. split; [reflexivity | constructor].
  - rewrite findRulesFrom_cons.
    destruct (truthy (Rule.matchPolicy rule)); cbn [negb]; [|discriminate].
    destruct (matchKeys (Rule.operation rule) operation) as [[|]|e] eqn:E;
      cbn [bindC]; [| |discriminate].
    + assert (Hm : ruleMatches operation rule = true) by now apply ruleMatches_true.
      destruct (Rule.isStop rule) eqn:Es.
      * intros [= <-]. right. exists [], rule, rest. simpl.
        repeat split; try assumption; constructor.
      * intros H. apply bindC_normal in H as (found' & Hf & [= <-]).
        destruct (IH found' Hf) as [[-> Hn] | (pre & stop & post & -> & Hs & Hms & -> & Hn)].
        -- left. simpl. rewrite Hm. split; [reflexivity | now constructor].
        -- right. exists (rule :: pre), stop, post. simpl. rewrite Hm.
           repeat split; try assumption. now constructor.
    + assert (Hm : ruleMatches operation rule = false).
      { unfold ruleMatches. now rewrite E. }
      intros H.
      destruct (IH found H) as [[-> Hn] | (pre & stop & post & -> & Hs & Hms & -> & Hn)].
      * left. simpl. rewrite Hm. split; [reflexivity | assumption].
      * right. exists (rule :: pre), stop, post. simpl. rewrite Hm.
        repeat split; assumption.
Qed.

(** X1.  A result of [findRules] is either the list of all the rules that
    match, in the order of the rules, none of them a stop rule; or the rules
    that match in front of the first stop rule that matches, none of them a
    stop rule, followed by that stop rule. *)
Theorem findRules_first_stop (this : Config) (operation : Operation)
    (found : list Rule.t) :
  findRules this operation = Normal found ->
  (found = List.filter (ruleMatches operation) (rules this) /\
   Forall (fun rule => Rule.isStop rule = false) found) \/
  (exists pre stop post,
     rules this = pre ++ stop :: post /\
     Rule.isStop stop = true /\ ruleMatches operation stop = true /\
     found = List.filter (ruleMatches operation) pre ++ [stop] /\
     Forall (fun rule => Rule.isStop rule = false)
            (List.filter (ruleMatches operation) pre)).
Proof. apply findRules_result. Qed.

Lemma findRules_first_stop_witness :
  exists pre stop post,
    [canaryForX; stopForAll; brokenGlob] = pre ++ stop :: post /\
    Rule.isStop stop = true /\
    [canaryForX; stopForAll] = List.filter (ruleMatches [("op", "x")]) pre ++ [stop].
Proof.
  destruct (findRules_first_stop
              {| rules := [canaryForX; stopForAll; brokenGlob]; ruleLabels := ∅ |}
              [("op", "x")] [canaryForX; stopForAll] eq_refl)
    as [[_ H] | (pre & stop & post & H1 & H2 & _ & H4 & _)].
  - exfalso. apply Forall_cons in H as [_ H]. apply Forall_cons in H as [H _].
    discriminate H.
  - exists pre, stop, post. auto.
Defined.

(** *** Matching looks at the attributes the patterns name, and at nothing else *)

Lemma matchKey_get (k v : string) (operation operation' : Operation) :
  get operation k = get operation' k ->
  matchKey k v operation = matchKey k v operation'.
Proof. intros H. unfold matchKey. now rewrite H. Qed.

Lemma matchKeys_get (pattern operation operation' : Operation) :
  (forall k v, In (k, v) pattern -> get operation k = get operation' k) ->
  matchKeys pattern operation = matchKeys pattern operation'.
Proof.
  induction pattern as [|[k v] rest IH]; intros H; [reflexivity|].
  simpl. rewrite (matchKey_get k v operation operation').
  - destruct (matchKey k v operation') as [[|]|e]; simpl; try reflexivity.
    apply IH. intros k' v' Hin. apply (H k' v'). now right.
  - apply (H k v). now left.
Qed.

(** X2.  Two operations that agree on every attribute named by a
    pattern of the configuration get the same result from [findRules], the
    same error included: other attributes and the order of the attributes
    play no part. *)
Theorem findRules_only_reads_pattern_keys (this : Config)
    (operation operation' : Operation) :
  (forall rule k v,
     In rule (rules this) -> In (k, v) (Rule.operation rule) ->
     get operation k = get operation' k) ->
  findRules this operation = findRules this operation'.
Proof.
  unfold findRules. generalize (@nil Rule.t).
  induction (rules this) as [|rule rest IH]; intros result H; [reflexivity|].
  simpl. destruct (truthy (Rule.matchPolicy rule)); simpl; [|reflexivity].
  rewrite (matchKeys_get _ operation operation').
  - assert (Hrest : forall result',
              findRulesFrom rest operation result' = findRulesFrom rest operation' result').
    { intros result'. apply IH. intros r k v Hr. apply H. now right. }
    destruct (matchKeys (Rule.operation rule) operation') as [[|]|e]; simpl;
      try reflexivity; [|apply Hrest].
    destruct (Rule.isStop rule); [reflexivity | apply Hrest].
  - intros k v Hin. apply (H rule k v); [now left | exact Hin].
Qed.

Lemma findRules_only_reads_pattern_keys_witness :
  findRules {| rules := [canaryForX; stopForAll]; ruleLabels := ∅ |}
            [("user", "u1"); ("op", "x")] =
  findRules {| rules := [canaryForX; stopForAll]; ruleLabels := ∅ |}
            [("op", "x"); ("path", "/files")].
Proof.
  apply findRules_only_reads_pattern_keys.
  intros rule k v [<- | [<- | []]] Hin; [|destruct Hin].
  destruct Hin as [[= <- <-] | []]. reflexivity.
Defined.

(** *** Patterns without [*] and patterns of [*] only *)

(** X3.  A pattern none of whose values has a [*] is evaluated without
    error, and it matches exactly the operations that carry each of its
    attributes with the very value of the pattern; a missing attribute
    fails the pattern. *)
Theorem exact_pattern_matches (pattern operation : Operation) :
  exactPattern pattern ->
  exists matched,
    matchKeys pattern operation = Normal matched /\
    (matched = true <-> forall k v, In (k, v) pattern -> get operation k = Some v).
Proof.
  induction 1 as [|[k v] rest Hv _ IH]; simpl.
  - exists true. split; [reflexivity|]. split; [intros _ k v [] | reflexivity].
  - simpl in Hv. unfold matchKey.
    assert (Hs : String.eqb v "*" = false).
    { destruct (String.eqb v "*") eqn:E; [|reflexivity].
      apply String.eqb_eq in E. subst v. discriminate Hv. }
    rewrite Hs, Hv. destruct IH as (matched & Hm & Hiff).
    destruct (get operation k) as [actual|] eqn:Hg; simpl.
    + destruct (String.eqb v actual) eqn:E.
      * apply String.eqb_eq in E. subst actual.
        exists matched. split; [exact Hm|]. rewrite Hiff. split.
        -- intros H k' v' [[= <- <-] | Hin]; [exact Hg | now apply H].
        -- intros H k' v' Hin. apply H. now right.
      * exists false. split; [reflexivity|]. split; [discriminate|].
        intros H. specialize (H k v (or_introl eq_refl)). rewrite Hg in H.
        injection H as <-. now rewrite String.eqb_refl in E.
    + exists false. split; [reflexivity|]. split; [discriminate|].
      intros H. specialize (H k v (or_introl eq_refl)). congruence.
Qed.

Lemma exact_pattern_matches_witness :
  exists matched,
    matchKeys [("op", "x"); ("user", "u1")] [("user", "u1")] = Normal matched /\
    (matched = true <->
     forall k v, In (k, v) [("op", "x"); ("user", "u1")] ->
                 get [("user", "u1")] k = Some v).
Proof.
  apply exact_pattern_matches. repeat constructor.
Defined.

Lemma allWildcards_matches (pattern operation : Operation) :
  allWildcards pattern -> matchKeys pattern operation = Normal true.
Proof.
  induction 1 as [|[k v] rest Hv _ IH]; [reflexivity|].
  simpl in Hv. subst v. simpl. exact IH.
Qed.

(** In a built configuration nothing follows a stop rule that matches
    every operation. *)
Lemma Built_universal_stop_last (this : Config) :
  Built this ->
  forall pre rule post,
    rules this = pre ++ rule :: post ->
    Rule.isStop rule = true ->
    (forall operation, matchKeys (Rule.operation rule) operation = Normal true) ->
    post = [].
Proof.
  induction 1 as [|arg this _ IH]; intros pre rule post Hr Hs Hall.
  - destruct pre; discriminate Hr.
  - destruct (addRule_cases arg this) as [E | (op & found & _ & Hf & Hn & E)];
      rewrite E in Hr; [eauto|].
    apply snoc_split in Hr as [(-> & _) | (post' & -> & Hr)]; [reflexivity|].
    exfalso.
    destruct (findRulesFrom_finds_stop (rules this) op rule found) as (m & Hm & _);
      auto.
    + rewrite Hr. apply in_or_app. right. now left.
    + rewrite Hm in Hn. discriminate Hn.
Qed.

(** X4.  A rule whose pattern-values are all [*] matches every operation,
    the operations without these attributes included.  Once a built
    configuration holds such a rule with the policy [stop] and at least one
    key, it is a dead end: every further [addRule] throws and leaves it as
    it is, and [validate] rejects it for lack of a default rule. *)
Theorem wildcard_stop_rule_dead_end (this : Config) (rule : Rule.t) :
  Built this ->
  In rule (rules this) ->
  allWildcards (Rule.operation rule) ->
  (forall operation, ruleMatches operation rule = true) /\
  (Rule.isStop rule = true -> Rule.operation rule <> [] ->
   validate this = Throw NoDefaultRule /\
   forall arg, exists e, addRule arg this = (Throw e, this)).
Proof.
  intros Hb Hin Hw.
  assert (Hall : forall operation,
            matchKeys (Rule.operation rule) operation = Normal true)
    by (intros operation; now apply allWildcards_matches).
  split; [intros operation; now apply ruleMatches_true|].
  intros Hs Hne. split.
  - apply in_split in Hin as (pre & post & Hr).
    pose proof (Built_universal_stop_last this Hb pre rule post Hr Hs Hall) as ->.
    unfold validate. rewrite Hr, last_snoc.
    unfold Rule.isDefault. destruct (Rule.operation rule); [contradiction | reflexivity].
  - intros arg. destruct (Raw.operation arg) as [operation|] eqn:Ho.
    + pose proof (addRule_masked arg this operation rule Ho Hin Hs (Hall operation)) as H.
      destruct (findRules this operation) as [found|e].
      * destruct H as (masking & _ & _ & Ha). eauto.
      * eauto.
    + exists OperationMissing. unfold addRule. now rewrite Ho.
Qed.

Lemma wildcard_stop_rule_dead_end_witness :
  validate configWithWildcard = Throw NoDefaultRule /\
  exists e, addRule defaultDeclaration configWithWildcard = (Throw e, configWithWildcard).
Proof.
  destruct (wildcard_stop_rule_dead_end configWithWildcard
              (makeRule [("op", "*")] wildcardDeclaration)
              (Built_addRule wildcardDeclaration newConfig Built_new)
              (or_introl eq_refl)) as [_ H].
  - repeat constructor.
  - destruct (H eq_refl) as [Hv Ha]; [discriminate|].
    split; [exact Hv | apply Ha].
Defined.

(** ** Globs that compile and globs that do not *)

Lemma parseTerms_escaped_double (w v : string) :
  Str.headIs "*" v = true \/ Str.hasDouble "*" v = true ->
  RegExp.parseTerms w (escapeRegex v) = Throw (RegExpSyntaxError w).
Proof.
  remember (String.length v) as n eqn:Hn.
  assert (Hle : String.length v <= n) by lia. clear Hn.
  revert v Hle. induction n as [|n IH]; intros v Hle H.
  - destruct v; [destruct H; discriminate | simpl in Hle; lia].
  - destruct v as [|c r]; [destruct H; discriminate|].
    simpl in Hle. rewrite parseTerms_escaped_value.
    destruct (Ascii.eqb c "*") eqn:Ec; [reflexivity|].
    assert (Hd : Str.hasDouble "*" r = true).
    { destruct H as [H | H]; simpl in H.
      - rewrite Ascii.eqb_sym, Ec in H. discriminate H.
      - rewrite (Ascii.eqb_sym "*" c), Ec in H. exact H. }
    rewrite quantified_escaped.
    destruct r as [|d r']; [discriminate Hd|].
    simpl in Hd, Hle. destruct (Ascii.eqb d "*") eqn:Ed.
    + rewrite (IH r'); [reflexivity | lia |].
      rewrite (Ascii.eqb_sym "*" d), Ed in Hd. simpl in Hd.
      now apply orb_true_iff in Hd.
    + rewrite (IH (String d r')); [reflexivity | simpl; lia |].
      right. simpl. exact Hd.
Qed.

Lemma hasDouble_after_first_star (p q : string) :
  isGlobValue p = false ->
  Str.hasDouble "*" (p +:+ String "*" q) = true ->
  Str.headIs "*" q = true \/ Str.hasDouble "*" q = true.
Proof.
  unfold isGlobValue. induction p as [|c p IH]; simpl.
  - intros _ H. now apply orb_true_iff in H.
  - intros Hp H. apply orb_false_iff in Hp as [Hc Hp]. rewrite Hc in H.
    simpl in H. auto.
Qed.

(** X5.  A pattern-value with a [*] compiles exactly when it has no two
    adjacent [*]; when it has, [parseGlob] throws the syntax error of
    [new RegExp], and so does every evaluation of a key with that value. *)
Theorem parseGlob_throws_on_double_star (v : string) :
  isGlobValue v = true ->
  (Str.hasDouble "*" v = true <->
   parseGlob v = Throw (RegExpSyntaxError (parseGlobSource v))) /\
  (Str.hasDouble "*" v = false <-> exists re, parseGlob v = Normal re) /\
  (Str.hasDouble "*" v = true ->
   forall k operation,
     matchKey k v operation = Throw (RegExpSyntaxError (parseGlobSource v))).
Proof.
  intros Hg.
  assert (Hthrow : Str.hasDouble "*" v = true ->
            parseGlob v = Throw (RegExpSyntaxError (parseGlobSource v))).
  { intros Hd. destruct (first_star v Hg) as (p & q & -> & Hp).
    rewrite (parseGlob_split p q Hp).
    rewrite (parseTerms_escaped_double _ q (hasDouble_after_first_star p q Hp Hd)).
    reflexivity. }
  split; [|split].
  - split; [exact Hthrow|]. intros H.
    destruct (Str.hasDouble "*" v) eqn:Hd; [reflexivity|].
    destruct (parseGlob_ok v Hg Hd) as [re Hre]. congruence.
  - split; [now apply parseGlob_ok|]. intros [re Hre].
    destruct (Str.hasDouble "*" v) eqn:Hd; [|reflexivity].
    rewrite (Hthrow eq_refl) in Hre. discriminate Hre.
  - intros Hd k operation. unfold matchKey.
    destruct (String.eqb v "*") eqn:Es.
    + apply String.eqb_eq in Es. subst v. discriminate Hd.
    + rewrite Hg, (Hthrow Hd). reflexivity.
Qed.

Lemma parseGlob_throws_on_double_star_witness :
  parseGlob "/files/**" = Throw (RegExpSyntaxError "^/files/.**").
Proof.
  apply (proj1 (parseGlob_throws_on_double_star "/files/**" eq_refl)).
  reflexivity.
Defined.

(** *** What a glob with one [*] accepts *)

Lemma allChars_app (f : ascii -> bool) (a b : string) :
  allChars f (a +:+ b) = allChars f a && allChars f b.
Proof.
  induction a as [|c a IH]; simpl; [reflexivity|].
  now rewrite IH, andb_assoc.
Qed.

Lemma matchPrefix_star_spec (a : RegExp.Atom) (re : RegExp.Pattern) (s : string) :
  RegExp.matchPrefix (RegExp.Star a :: re) s = true <->
  exists mid rest,
    s = mid +:+ rest /\ allChars (RegExp.atomMatches a) mid = true /\
    RegExp.matchPrefix re rest = true.
Proof.
  induction s as [|c s IH]; rewrite matchPrefix_star.
  - rewrite orb_false_r. split.
    + intros H. now exists "", "".
    + intros (mid & rest & Hs & _ & H).
      destruct mid; [|discriminate Hs]. simpl in Hs. now subst rest.
  - rewrite orb_true_iff, andb_true_iff, IH. split.
    + intros [H | [Hc (mid & rest & -> & Hm & H)]].
      * now exists "", (String c s).
      * exists (String c mid), rest. simpl. now rewrite Hc, Hm.
    + intros (mid & rest & Hs & Hm & H). destruct mid as [|d mid].
      * simpl in Hs. subst rest. now left.
      * simpl in Hs, Hm. injection Hs as <- ->.
        apply andb_true_iff in Hm as [Hd Hm].
        right. split; [exact Hd|]. now exists mid, rest.
Qed.

Lemma parseTerms_literals_end (w q : string) :
  isGlobValue q = false ->
  RegExp.parseTerms w (escapeRegex q) = Normal (literals q).
Proof.
  intros Hq. rewrite <- (append_empty_r (escapeRegex q)).
  rewrite (parseTerms_literals w q "" Hq eq_refl). simpl.
  now rewrite app_nil_r.
Qed.

(** X6.  A glob [p*q] with a single [*] compiles to [p], any characters,
    [q]; it accepts exactly the values made of [p], then characters none of
    which is a line terminator, then [q], then anything: the text after the
    [*] has to occur, and a line break may not stand between [p] and it. *)
Theorem single_star_glob_accepts (p q : string) :
  isGlobValue p = false -> isGlobValue q = false ->
  parseGlob (p +:+ String "*" q) =
    Normal (literals p ++ RegExp.Star RegExp.AnyChar :: literals q) /\
  forall s : string,
    matchKey "k" (p +:+ String "*" q) [("k", s)] = Normal true <->
    (p = "" /\ q = "") \/
    exists mid rest,
      s = p +:+ mid +:+ q +:+ rest /\
      allChars (fun c => negb (RegExp.isLineTerminator c)) mid = true.
Proof.
  intros Hp Hq.
  assert (Hc : parseGlob (p +:+ String "*" q) =
               Normal (literals p ++ RegExp.Star RegExp.AnyChar :: literals q)).
  { rewrite (parseGlob_split p q Hp), (parseTerms_literals_end _ q Hq). reflexivity. }
  split; [exact Hc|]. intros s.
  assert (Hacc : RegExp.matchPrefix
                   (literals p ++ RegExp.Star RegExp.AnyChar :: literals q) s = true <->
                 exists mid rest,
                   s = p +:+ mid +:+ q +:+ rest /\
                   allChars (fun c => negb (RegExp.isLineTerminator c)) mid = true).
  { rewrite matchPrefix_literals. split.
    - intros (t & -> & H). apply matchPrefix_star_spec in H as (mid & t' & -> & Hm & H).
      rewrite <- (app_nil_r (literals q)) in H.
      apply matchPrefix_literals in H as (rest & -> & _).
      now exists mid, rest.
    - intros (mid & rest & -> & Hm). exists (mid +:+ q +:+ rest).
      split; [reflexivity|]. apply matchPrefix_star_spec.
      exists mid, (q +:+ rest). split; [reflexivity|]. split; [exact Hm|].
      rewrite <- (app_nil_r (literals q)). apply matchPrefix_literals.
      now exists rest. }
  unfold matchKey. destruct (String.eqb (p +:+ String "*" q) "*") eqn:Es.
  - apply String.eqb_eq in Es.
    assert (p = "" /\ q = "") as [-> ->].
    { destruct p as [|c p]; simpl in Es; [now injection Es as ->|].
      injection Es as -> Es. destruct p; discriminate Es. }
    split; [now left | reflexivity].
  - assert (Hg : isGlobValue (p +:+ String "*" q) = true).
    { unfold isGlobValue. clear. induction p as [|c p IH]; simpl; [reflexivity|].
      now rewrite IH, orb_true_r. }
    rewrite Hg, Hc. cbn [bindC get]. rewrite String.eqb_refl.
    unfold RegExp.test. split.
    + intros [= H]. right. now apply Hacc.
    + intros [[-> ->] | H]; [discriminate Es|].
      apply Hacc in H. now rewrite H.
Qed.

Lemma single_star_glob_accepts_witness :
  matchKey "k" ("/files/" +:+ String "*" ".txt") [("k", "/files/a/readme.txt.bak")]
  = Normal true.
Proof.
  apply (proj2 (single_star_glob_accepts "/files/" ".txt" eq_refl eq_refl)).
  right. exists "a/readme", ".bak". split; reflexivity.
Defined.

(** ** What every rule of a built configuration satisfies *)

Lemma truthy_orNull (v : option string) : orNull v <> Some "".
Proof.
  unfold orNull. destruct (truthy v) eqn:E; [|discriminate].
  intros ->. discriminate E.
Qed.

Lemma checkMatchPolicy_normal (matchPolicy : option string) :
  checkMatchPolicy matchPolicy = Normal () ->
  truthy matchPolicy = false \/
  matchPolicy = Some MATCH_POLICY_STOP \/ matchPolicy = Some MATCH_POLICY_CANARY.
Proof.
  unfold checkMatchPolicy. destruct matchPolicy as [p|]; [|now left].
  destruct (truthy (Some p)); simpl; [|now left].
  destruct (String.eqb p MATCH_POLICY_STOP) eqn:E1.
  - apply String.eqb_eq in E1. subst p. auto.
  - destruct (String.eqb p MATCH_POLICY_CANARY) eqn:E2; [|discriminate].
    apply String.eqb_eq in E2. subst p. auto.
Qed.

(** What the label block has checked when it returns. *)
Lemma checkLabel_normal (label : option string) (this this' : Config) (u : unit) :
  checkLabel label this = (Normal u, this') ->
  (truthy label = false /\ this' = this) \/
  (exists l, label = Some l /\ truthy label = true /\
     RULE_LABEL_REGEX_test l = true /\ (l ∉ ruleLabels this) /\
     this' = {| rules := rules this; ruleLabels := ruleLabels this ∪ {[ l ]} |}).
Proof.
  unfold checkLabel. destruct label as [l|]; [|intros [= <-]; now left].
  destruct (truthy (Some l)) eqn:Et; simpl; [|intros [= <-]; now left].
  destruct (RULE_LABEL_REGEX_test l) eqn:Er; simpl; [|discriminate].
  destruct (bool_decide (l ∈ ruleLabels this)) eqn:Eb; [discriminate|].
  intros [= <-]. right. exists l.
  apply bool_decide_eq_false in Eb. auto.
Qed.

Lemma makeRule_wellFormed (arg : Raw.t) (this this' : Config) (operation : Operation) :
  addRule arg this = (Normal (), this') ->
  Raw.operation arg = Some operation ->
  wellFormedRule (makeRule operation arg).
Proof.
  intros Ha Ho.
  destruct (addRule_returns _ _ _ _ Ha)
    as (op & found & _ & _ & _ & Hc & Hr & Hp & [u Hl] & _).
  unfold wellFormedRule, makeRule. cbn [Rule.creditLimit Rule.resetSeconds
    Rule.matchPolicy Rule.label Rule.actorField Rule.comment].
  split; [|split; [|split; [|split]]].
  - unfold invalidCreditLimit in Hc. unfold invalidResetSeconds in Hr.
    destruct (Raw.creditLimit arg) as [n|]; [|discriminate].
    exists n. split; [reflexivity|]. split; [lia|]. intros Hn.
    assert (E : (0 <? n)%Z = true) by lia. rewrite E in Hr. simpl in Hr.
    destruct (Raw.resetSeconds arg) as [s|]; [|discriminate].
    exists s. split; [reflexivity | lia].
  - destruct (checkMatchPolicy_normal _ Hp) as [E | [E | E]].
    + rewrite E. now left.
    + rewrite E. now left.
    + rewrite E. now right.
  - intros l Hlab. apply checkLabel_normal in Hl as [[Et _] | (l' & E & _ & Hre & _)].
    + unfold orNull in Hlab. rewrite Et in Hlab. discriminate Hlab.
    + rewrite E in Hlab. unfold orNull in Hlab.
      destruct (truthy (Some l')); [|discriminate]. now injection Hlab as <-.
  - apply truthy_orNull.
  - apply truthy_orNull.
Qed.

Lemma Built_wellFormed (this : Config) :
  Built this -> Forall wellFormedRule (rules this).
Proof.
  induction 1 as [|arg this _ IH]; [constructor|].
  destruct (addRule arg this) as [[[]|e] this'] eqn:E; simpl.
  - destruct (addRule_returns _ _ _ _ E) as (op & found & Ho & _ & _ & _ & _ & _ & _ & Hr).
    rewrite Hr. apply Forall_app. split; [exact IH|].
    constructor; [|constructor]. eapply makeRule_wellFormed; eassumption.
  - now rewrite (addRule_throws _ _ _ _ E).
Qed.



(** *** Labels *)

Lemma checkLabel_labels (label : option string) (this : Config) :
  ruleLabels this ⊆ ruleLabels (snd (checkLabel label this)).
Proof.
  unfold checkLabel. destruct label as [l|]; [|reflexivity].
  destruct (negb (truthy (Some l))); [reflexivity|].
  destruct (negb (RULE_LABEL_REGEX_test l)); [reflexivity|].
  destruct (bool_decide (l ∈ ruleLabels this)); [reflexivity|].
  simpl. set_solver.
Qed.

(** No call of [addRule] takes a label out of [ruleLabels]. *)
Lemma addRule_labels (arg : Raw.t) (this : Config) :
  ruleLabels this ⊆ ruleLabels (snd (addRule arg this)).
Proof.
  unfold addRule. destruct (Raw.operation arg) as [operation|]; [|reflexivity].
  destruct (findRules this operation) as [found|e]; [|reflexivity].
  destruct (List.find Rule.isStop found); [reflexivity|].
  destruct (invalidCreditLimit _); [reflexivity|].
  destruct (invalidResetSeconds _ _); [reflexivity|].
  pose proof (checkLabel_labels (Raw.label arg) this) as H.
  destruct (checkLabel (Raw.label arg) this) as [[u|e] mid]; [|exact H].
  now destruct (checkMatchPolicy (Raw.matchPolicy arg)).
Qed.

Lemma labelsOf_app (l1 l2 : list Rule.t) : labelsOf (l1 ++ l2) = labelsOf l1 ++ labelsOf l2.
Proof. apply omap_app. Qed.

Lemma Built_labels (this : Config) :
  Built this ->
  NoDup (labelsOf (rules this)) /\
  forall l, l ∈ labelsOf (rules this) -> l ∈ ruleLabels this.
Proof.
  induction 1 as [|arg this _ [IHn IHs]].
  - split; [constructor | intros l Hl; inversion Hl].
  - destruct (addRule arg this) as [[[]|e] this'] eqn:E.
    + destruct (addRule_returns _ _ _ _ E)
        as (op & found & _ & _ & _ & _ & _ & _ & [u Hl] & Hr).
      cbn [snd]. rewrite Hr, labelsOf_app.
      change (labelsOf [makeRule op arg])
        with (match orNull (Raw.label arg) with Some l => [l] | None => [] end).
      apply checkLabel_normal in Hl as [[Et Heq] | (l & Hlab & Et & Hre & Hnew & Heq)];
        apply (f_equal ruleLabels) in Heq; cbn [ruleLabels] in Heq; rename Heq into Hlabels.
      * unfold orNull. rewrite Et, app_nil_r.
        split; [exact IHn|]. intros l Hin. rewrite Hlabels. auto.
      * unfold orNull. rewrite Et, Hlab. split.
        -- apply NoDup_app. split; [exact IHn|]. split; [|apply NoDup_singleton].
           intros x Hx Hx'. apply list_elem_of_singleton in Hx'.
           rewrite Hx' in Hx. auto.
        -- intros x Hx. rewrite Hlabels. apply elem_of_app in Hx as [Hx | Hx].
           ++ apply elem_of_union_l. auto.
           ++ apply list_elem_of_singleton in Hx. subst x.
              apply elem_of_union_r. now apply elem_of_singleton.
    + cbn [snd]. rewrite (addRule_throws _ _ _ _ E). split; [exact IHn|].
      intros l Hin. pose proof (addRule_labels arg this) as Hsub.
      rewrite E in Hsub. cbn [snd] in Hsub. auto.
Qed.



(** *** No rule behind a stop rule that matches its pattern *)

(** X9.  In a configuration built through [addRule] no rule stands behind
    a stop rule that matches the pattern of that rule taken as an
    operation. *)
Theorem Built_no_rule_masked (this : Config) :
  Built this ->
  forall pre rule post masking,
    rules this = pre ++ rule :: post ->
    In masking pre -> Rule.isStop masking = true ->
    ruleMatches (Rule.operation rule) masking = false.
Proof.
  induction 1 as [|arg this _ IH]; intros pre rule post masking Hr Hin Hs.
  - destruct pre; discriminate Hr.
  - destruct (addRule_cases arg this) as [E | (op & found & _ & Hf & Hn & E)];
      rewrite E in Hr; [eauto|].
    apply snoc_split in Hr as [(_ & <- & <-) | (post' & -> & Hr)]; [|eauto].
    destruct (ruleMatches (Rule.operation (makeRule op arg)) masking) eqn:Hm;
      [|reflexivity].
    apply ruleMatches_true in Hm.
    destruct (findRulesFrom_finds_stop (rules this) op masking found Hin Hs Hm Hf)
      as (m & Hfind & _).
    rewrite Hfind in Hn. discriminate Hn.
Qed.

Lemma Built_no_rule_masked_witness :
  ruleMatches [] (makeRule [("op", "x")] declarationForX) = false.
Proof.
  apply (Built_no_rule_masked
           (snd (addRule defaultDeclaration (snd (addRule declarationForX newConfig))))
           (Built_addRule _ _ (Built_addRule declarationForX newConfig Built_new))
           [makeRule [("op", "x")] declarationForX] (makeRule [] defaultDeclaration) []
           (makeRule [("op", "x")] declarationForX) eq_refl (or_introl eq_refl) eq_refl).
Defined.

(** *** What a call of [addRule] that throws leaves behind *)

(** X10.  A call of [addRule] on a built configuration that throws never
    changes the rules.  It leaves the whole configuration as it was, except
    when the error is the one of the invalid match policy and the argument
    has a label: the label has then been recorded already, so that every
    later call with that label throws although no rule carries it. *)
Theorem addRule_throw_keeps_label (arg : Raw.t) (this this' : Config) (e : Error) :
  Built this ->
  addRule arg this = (Throw e, this') ->
  rules this' = rules this /\
  (this' = this \/
   exists p l,
     e = InvalidMatchPolicy p /\ Raw.label arg = Some l /\
     (l ∉ labelsOf (rules this')) /\
     this' = {| rules := rules this; ruleLabels := ruleLabels this ∪ {[ l ]} |} /\
     forall arg', Raw.label arg' = Some l ->
       exists e' this'', addRule arg' this' = (Throw e', this'')).
Proof.
  intros Hb Ha. split; [eapply addRule_throws, Ha|].
  revert Ha. unfold addRule.
  destruct (Raw.operation arg) as [operation|]; [|intros [= <- <-]; now left].
  destruct (findRules this operation) as [found|e0]; [|intros [= <- <-]; now left].
  destruct (List.find Rule.isStop found); [intros [= <- <-]; now left|].
  destruct (invalidCreditLimit _); [intros [= <- <-]; now left|].
  destruct (invalidResetSeconds _ _); [intros [= <- <-]; now left|].
  destruct (checkLabel (Raw.label arg) this) as [[u|e0] mid] eqn:El.
  - destruct (checkMatchPolicy (Raw.matchPolicy arg)) as [[]|e0] eqn:Ep; [discriminate|].
    intros [= <- <-].
    apply checkLabel_normal in El as [[_ ->] | (l & Hlab & Et & Hre & Hnew & ->)];
      [now left|].
    right.
    assert (exists p, e0 = InvalidMatchPolicy p) as [p ->].
    { unfold checkMatchPolicy in Ep. destruct (Raw.matchPolicy arg) as [p|]; [|discriminate].
      destruct (negb (truthy (Some p))); [discriminate|].
      destruct (_ || _); [discriminate|]. injection Ep as <-. now exists p. }
    exists p, l. split; [reflexivity|]. split; [exact Hlab|].
    split; [|split; [reflexivity|]].
    + cbn [rules]. intros Hin. apply Hnew. now apply (Built_labels this Hb).
    + intros arg' Hlab'. unfold addRule.
      destruct (Raw.operation arg') as [operation'|]; [|eauto].
      destruct (findRules _ operation') as [found'|e1]; [|eauto].
      destruct (List.find Rule.isStop found'); [eauto|].
      destruct (invalidCreditLimit _); [eauto|].
      destruct (invalidResetSeconds _ _); [eauto|].
      rewrite Hlab in Et.
      rewrite Hlab'. unfold checkLabel. rewrite Et, Hre. cbn [negb ruleLabels].
      rewrite bool_decide_eq_true_2 by set_solver. eauto.
  - intros [= <- <-]. left.
    unfold checkLabel in El. destruct (Raw.label arg) as [l|]; [|discriminate].
    destruct (negb (truthy (Some l))); [discriminate|].
    destruct (negb (RULE_LABEL_REGEX_test l)); [now injection El as _ <-|].
    destruct (bool_decide (l ∈ ruleLabels this)); [now injection El as _ <-|].
    discriminate.
Qed.

Lemma addRule_throw_keeps_label_witness :
  rules (snd (addRule invalidPolicyDeclaration configWithDefault)) =
    rules configWithDefault /\
  fst (addRule invalidPolicyDeclaration newConfig) =
    Throw (InvalidMatchPolicy "sometimes") /\
  exists e this'',
    addRule labelledDeclaration (snd (addRule invalidPolicyDeclaration newConfig)) =
      (Throw e, this'').
Proof.
  split; [|split; [reflexivity|]].
  - apply (addRule_throw_keeps_label invalidPolicyDeclaration configWithDefault
             (snd (addRule invalidPolicyDeclaration configWithDefault))
             (UnreachableRule [("op", "x")] [])
             (Built_addRule defaultDeclaration newConfig Built_new) eq_refl).
  - destruct (addRule_throw_keeps_label invalidPolicyDeclaration newConfig
                (snd (addRule invalidPolicyDeclaration newConfig))
                (InvalidMatchPolicy "sometimes") Built_new eq_refl)
      as [_ [H | (p & l & _ & Hl & _ & _ & H)]].
    + apply (f_equal (fun c => bool_decide ("limit-x" ∈ ruleLabels c))) in H.
      vm_compute in H. discriminate H.
    + injection Hl as <-. apply H. reflexivity.
Defined.

(** ** The loaders *)

Lemma addRule_declaration (rule : Raw.t) (config config' : Config) :
  addRule (declaration rule) config = (Normal (), config') ->
  rules config' = rules config ++ [installed rule].
Proof.
  intros H. destruct (addRule_returns _ _ _ _ H)
    as (op & found & Ho & _ & _ & _ & _ & _ & _ & Hr).
  simpl in Ho. injection Ho as <-. exact Hr.
Qed.

Lemma addRules_installed (declarations : list Raw.t) (config this : Config) :
  addRules declarations config = (Normal (), this) ->
  rules this = rules config ++ map installed declarations.
Proof.
  revert config. induction declarations as [|rule rest IH]; intros config; simpl.
  - intros [= <-]. now rewrite app_nil_r.
  - destruct (addRule (declaration rule) config) as [[[]|e] next] eqn:E; [|discriminate].
    intros H. rewrite (IH next H), (addRule_declaration _ _ _ E), <- app_assoc.
    reflexivity.
Qed.

Lemma fromJsonFile_normal (rawConfig : RawConfig.t) (this : Config) :
  fromJsonFile (Normal rawConfig) = Normal this <->
  exists declarations,
    withDefault (RawConfig.overrides rawConfig) (RawConfig.default rawConfig) =
      Normal declarations /\
    addRules declarations newConfig = (Normal (), this) /\
    validate this = Normal ().
Proof.
  unfold fromJsonFile. cbn [bindC].
  destruct (withDefault _ _) as [declarations|e]; cbn [bindC].
  - destruct (addRules declarations newConfig) as [[[]|e] config] eqn:E.
    + destruct (validate config) as [[]|e] eqn:Ev; cbn [bindC].
      * split.
        -- intros [= <-]. exists declarations. auto.
        -- intros (d & [= <-] & Ha & _). rewrite E in Ha. now injection Ha as ->.
      * split; [discriminate|].
        intros (d & [= <-] & Ha & Hv). rewrite E in Ha. injection Ha as ->. congruence.
    + split; [discriminate|].
      intros (d & [= <-] & Ha & _). rewrite E in Ha. discriminate Ha.
  - split; [discriminate | intros (d & H & _); discriminate H].
Qed.

Lemma fromJsonFile_rules (rawConfig : RawConfig.t) (this : Config) :
  fromJsonFile (Normal rawConfig) = Normal this ->
  rules this =
    map installed (match RawConfig.overrides rawConfig with
                   | Some overrides => overrides
                   | None => []
                   end) ++
    match RawConfig.default rawConfig with
    | Some default => [installed default]
    | None => []
    end.
Proof.
  intros H. apply fromJsonFile_normal in H as (declarations & Hd & Ha & _).
  rewrite (addRules_installed _ _ _ Ha). simpl.
  unfold withDefault in Hd.
  destruct (RawConfig.default rawConfig) as [d|],
           (RawConfig.overrides rawConfig) as [o|];
    try discriminate Hd; injection Hd as <-.
  - now rewrite map_app.
  - now rewrite app_nil_r.
  - reflexivity.
Qed.




(** X12.  A reload cycle returns exactly when the JSON loader accepts the
    static file with the fetched rules put in front of its overrides, each
    fetched rule in front of the ones fetched before it; the configuration
    is then the one the loader gives, whatever it was before, and its first
    rules are those of the fetched rules in reverse order. *)
Theorem reload_is_load_with_fetched_first (rawConfig : RawConfig.t)
    (fetched : list Raw.t) (config this : Config) :
  (processNewRules false (Normal rawConfig) (Normal fetched) config = (Normal (), this) <->
   exists overrides,
     unshiftAll fetched (RawConfig.overrides rawConfig) = Normal overrides /\
     fromJsonFile (Normal {| RawConfig.overrides := overrides;
                             RawConfig.default := RawConfig.default rawConfig |}) =
       Normal this) /\
  (processNewRules false (Normal rawConfig) (Normal fetched) config = (Normal (), this) ->
   exists rest, rules this = map installed (rev fetched) ++ rest).
Proof.
  assert (Hiff :
    processNewRules false (Normal rawConfig) (Normal fetched) config = (Normal (), this) <->
    exists overrides,
      unshiftAll fetched (RawConfig.overrides rawConfig) = Normal overrides /\
      fromJsonFile (Normal {| RawConfig.overrides := overrides;
                              RawConfig.default := RawConfig.default rawConfig |}) =
        Normal this).
  { unfold processNewRules, reloadDeclarations. cbn [bindC].
    change {| rules := []; ruleLabels := ∅ |} with newConfig.
    destruct (unshiftAll fetched (RawConfig.overrides rawConfig)) as [overrides|e];
      cbn [bindC].
    - split.
      + intros H. exists overrides. split; [reflexivity|].
        apply fromJsonFile_normal. cbn [RawConfig.overrides RawConfig.default].
        destruct (withDefault overrides (RawConfig.default rawConfig))
          as [declarations|e]; [|discriminate].
        exists declarations. split; [reflexivity|].
        destruct (addRules declarations newConfig) as [[[]|e] next]; [|discriminate].
        injection H as Hv ->. auto.
      + intros (o & [= <-] & H). apply fromJsonFile_normal in H
          as (declarations & Hd & Ha & Hv).
        cbn [RawConfig.overrides RawConfig.default] in Hd. rewrite Hd, Ha, Hv.
        reflexivity.
    - split; [discriminate | intros (o & H & _); discriminate H]. }
  split; [exact Hiff|].
  intros H. apply Hiff in H as (overrides & Hu & H).
  apply fromJsonFile_rules in H.
  cbn [RawConfig.overrides RawConfig.default] in H.
  unfold unshiftAll in Hu. destruct fetched as [|f fetched].
  - exists (rules this). reflexivity.
  - destruct (RawConfig.overrides rawConfig) as [o|]; [|discriminate].
    injection Hu as <-. rewrite H, map_app, <- app_assoc. eauto.
Qed.

Lemma reload_is_load_with_fetched_first_witness :
  exists rest,
    rules (snd (processNewRules false (Normal staticFile)
                  (Normal [declarationForX; labelledDeclaration]) configWithWildcard)) =
    map installed (rev [declarationForX; labelledDeclaration]) ++ rest.
Proof.
  apply (proj2 (reload_is_load_with_fetched_first staticFile
                  [declarationForX; labelledDeclaration] configWithWildcard
                  (snd (processNewRules false (Normal staticFile)
                          (Normal [declarationForX; labelledDeclaration])
                          configWithWildcard)))).
  reflexivity.
Defined.

(** ** Serialization *)

Lemma toJsonFrom_spec (rs : list Rule.t) (sofar : list Raw.t) (d : option Raw.t) :
  toJsonFrom rs {| RawConfig.overrides := Some sofar; RawConfig.default := d |} =
  {| RawConfig.overrides := Some (sofar ++ map ruleToJson (List.filter hasPattern rs));
     RawConfig.default :=
       match lastDefault rs with
       | Some r => Some r
       | None => d
       end |}.
Proof.
  revert sofar d. induction rs as [|rule rest IH]; intros sofar d.
  - simpl. now rewrite app_nil_r.
  - cbn [toJsonFrom RawConfig.overrides RawConfig.default].
    destruct (Rule.isDefault rule) eqn:E; rewrite IH;
      unfold lastDefault, hasPattern; cbn [List.filter]; rewrite E; cbn [negb].
    + f_equal. destruct (List.filter Rule.isDefault rest) as [|x l]; [reflexivity|].
      rewrite last_cons_cons.
      destruct (last (x :: l)) eqn:El; [reflexivity|].
      apply last_None in El. discriminate El.
    + f_equal. cbn [map]. now rewrite <- app_assoc.
Qed.

(** X13.  The serialized form lists under [overrides] the rules with at
    least one pattern key, in their order, and gives as [default] the last
    rule with an empty pattern; the rules with an empty pattern before that
    one do not appear in it. *)
Theorem toJson_splits_rules (this : Config) :
  toJson this =
  {| RawConfig.overrides := Some (map ruleToJson (List.filter hasPattern (rules this)));
     RawConfig.default := lastDefault (rules this) |}.
Proof.
  unfold toJson. rewrite toJsonFrom_spec. simpl. now destruct (lastDefault (rules this)).
Qed.

(** *** Loading a serialized configuration, in general *)








Example stringToOperation_example :
  stringToOperation "a=b c=d" = [("a", "b"); ("c", "d")] /\
  stringToOperation " a=b=c  7=x 3  a" = [("3", ""); ("7", "x"); ("", ""); ("a", "")] /\
  parseInt (Some "  -12px") = Some (-12)%Z /\ parseInt (Some "px") = None.
Proof. repeat split. Qed.

(** ** Section names of the ini file *)

Lemma splitWhitespaceFrom_nonempty (s : string) (b : bool) :
  splitWhitespaceFrom s b <> [].
Proof.
  revert b. induction s as [|c s IH]; intros b; simpl; [discriminate|].
  destruct (isWhiteSpace c).
  - destruct b; [apply IH | discriminate].
  - destruct (splitWhitespaceFrom s false); discriminate.
Qed.

Lemma replaceValue_nil (operation : Operation) (key value : string) :
  replaceValue operation key value = [] -> operation = [].
Proof.
  destruct operation as [|[k v] rest]; [reflexivity|]. simpl.
  destruct (String.eqb k key); discriminate.
Qed.

Lemma insertIndex_not_nil (n : N) (key value : string) (operation : Operation) :
  insertIndex n key value operation <> [].
Proof.
  destruct operation as [|[k v] rest]; simpl; [discriminate|].
  destruct (arrayIndex k) as [m|]; [destruct (m <? n)%N|]; discriminate.
Qed.

(** An assignment leaves the object without key only if it had none and
    the key is [__proto__]. *)
Lemma set_nil (operation : Operation) (key value : string) :
  set operation key value = [] <-> operation = [] /\ key = "__proto__".
Proof.
  unfold set. destruct (String.eqb key "__proto__") eqn:E.
  - apply String.eqb_eq in E. subst key. split; [auto | now intros [-> _]].
  - apply String.eqb_neq in E. split; [|now intros [_ H]].
    destruct (hasKey operation key) eqn:Eh.
    + intros H. apply replaceValue_nil in H. subst operation. discriminate Eh.
    + destruct (arrayIndex key) as [n|].
      * intros H. now apply insertIndex_not_nil in H.
      * intros H. now apply app_eq_nil in H as [_ H].
Qed.

Lemma fold_set_nil (tokens : list string) (operation : Operation) :
  fold_left (fun operation kv => set operation (pairKey kv) (pairValue kv))
            tokens operation = [] <->
  operation = [] /\ Forall (fun kv => pairKey kv = "__proto__") tokens.
Proof.
  revert operation. induction tokens as [|kv rest IH]; intros operation; simpl.
  - split; [intros ->; split; [reflexivity | constructor] | now intros [-> _]].
  - rewrite IH, set_nil. split.
    + intros [[-> Hk] Hr]. split; [reflexivity | now constructor].
    + intros [-> H]. apply Forall_cons in H as [Hk Hr]. auto.
Qed.

Lemma stringToOperation_nil (s : string) :
  stringToOperation s = [] <->
  s = "default" \/ Forall (fun kv => pairKey kv = "__proto__") (splitWhitespace s).
Proof.
  unfold stringToOperation. destruct (String.eqb s "default") eqn:E.
  - apply String.eqb_eq in E. split; [now left | reflexivity].
  - apply String.eqb_neq in E. rewrite fold_set_nil. split.
    + intros [_ H]. now right.
    + intros [H | H]; [contradiction | auto].
Qed.

Lemma append_assoc_r (a b c : string) : a +:+ (b +:+ c) = (a +:+ b) +:+ c.
Proof. induction a as [|x a IH]; simpl; [reflexivity | now rewrite IH]. Qed.

Lemma startsWith_refl (s t : string) : Str.startsWith s (s +:+ t) = true.
Proof. apply startsWith_spec. now exists t. Qed.

(** The first piece of a split is a prefix of the text. *)
Lemma splitWhitespaceFrom_head (s : string) :
  exists piece pieces rest,
    splitWhitespaceFrom s false = piece :: pieces /\ s = piece +:+ rest.
Proof.
  induction s as [|c s (piece & pieces & rest & Hs & Hr)]; simpl.
  - now exists "", [], "".
  - destruct (isWhiteSpace c).
    + now exists "", (splitWhitespaceFrom s true), (String c s).
    + rewrite Hs. exists (String c piece), pieces, rest. simpl. now rewrite <- Hr.
Qed.

Lemma splitEquals_head (kv : string) :
  exists piece pieces rest, splitEquals kv = piece :: pieces /\ kv = piece +:+ rest.
Proof.
  induction kv as [|c s (piece & pieces & rest & Hs & Hr)]; simpl.
  - now exists "", [], "".
  - destruct (Ascii.eqb c "=").
    + now exists "", (splitEquals s), (String c s).
    + rewrite Hs. exists (String c piece), pieces, rest. simpl. now rewrite <- Hr.
Qed.

(** X15.  [stringToOperation] gives the empty pattern for the text
    [default]; for any other text it gives the empty pattern only when every
    piece of the text has the key [__proto__], which the assignment to an
    object ignores; so a text that is not [default] and does not start with
    [__proto__] gives a pattern with at least one key, the empty text
    included. *)
Theorem stringToOperation_empty (s : string) :
  (stringToOperation s = [] <->
   s = "default" \/ Forall (fun kv => pairKey kv = "__proto__") (splitWhitespace s)) /\
  (s <> "default" -> Str.startsWith "__proto__" s = false -> stringToOperation s <> []).
Proof.
  split; [apply stringToOperation_nil|].
  intros Hne Hs H. apply stringToOperation_nil in H as [H | H]; [contradiction|].
  unfold splitWhitespace in H.
  destruct (splitWhitespaceFrom_head s) as (piece & pieces & rest & Hp & ->).
  rewrite Hp in H. apply Forall_cons in H as [H _].
  unfold pairKey in H.
  destruct (splitEquals_head piece) as (key & more & rest' & Hk & ->).
  rewrite Hk in H. simpl in H. subst key.
  rewrite <- append_assoc_r in Hs.
  now rewrite startsWith_refl in Hs.
Qed.

Lemma stringToOperation_empty_witness : stringToOperation "" <> [].
Proof.
  apply (proj2 (stringToOperation_empty "")); [discriminate | reflexivity].
Defined.

(** *** Reading back the text of a pattern *)

Lemma plainText_cons (c : ascii) (s : string) :
  plainText (String c s) ->
  isWhiteSpace c = false /\ Ascii.eqb c "=" = false /\ plainText s.
Proof.
  unfold plainText. simpl. intros H.
  apply andb_true_iff in H as [H Hs]. apply andb_true_iff in H as [H1 H2].
  apply negb_true_iff in H1, H2. auto.
Qed.

Lemma splitEquals_plain (v : string) : plainText v -> splitEquals v = [v].
Proof.
  induction v as [|c v IH]; intros H; [reflexivity|].
  apply plainText_cons in H as (_ & Hc & Hv). simpl. now rewrite Hc, (IH Hv).
Qed.

Lemma splitEquals_pair (k v : string) :
  plainText k -> plainText v -> splitEquals (k +:+ String "=" v) = [k; v].
Proof.
  intros Hk Hv. induction k as [|c k IH]; simpl.
  - now rewrite (splitEquals_plain v Hv).
  - apply plainText_cons in Hk as (_ & Hc & Hk). now rewrite Hc, (IH Hk).
Qed.


Lemma noWhiteSpace_pair (k v : string) :
  plainText k -> plainText v -> noWhiteSpace (k +:+ String "=" v).
Proof.
  intros Hk Hv. unfold noWhiteSpace. rewrite allChars_app. simpl.
  assert (H : forall s, plainText s -> allChars (fun c => negb (isWhiteSpace c)) s = true).
  { clear. induction s as [|c s IH]; intros H; [reflexivity|].
    apply plainText_cons in H as (Hc & _ & Hs). simpl. now rewrite Hc, (IH Hs). }
  now rewrite (H k Hk), (H v Hv).
Qed.

Lemma splitWhitespaceFrom_token (t : string) :
  noWhiteSpace t -> splitWhitespaceFrom t false = [t].
Proof.
  unfold noWhiteSpace. induction t as [|c t IH]; intros H; [reflexivity|].
  simpl in H. apply andb_true_iff in H as [Hc Ht]. apply negb_true_iff in Hc.
  simpl. now rewrite Hc, (IH Ht).
Qed.

Lemma splitWhitespaceFrom_token_space (t r : string) :
  noWhiteSpace t ->
  splitWhitespaceFrom (t +:+ String " " r) false = t :: splitWhitespaceFrom r true.
Proof.
  unfold noWhiteSpace. induction t as [|c t IH]; intros H; [reflexivity|].
  simpl in H. apply andb_true_iff in H as [Hc Ht]. apply negb_true_iff in Hc.
  simpl. now rewrite Hc, (IH Ht).
Qed.

Lemma splitWhitespaceFrom_after_space (t r : string) :
  noWhiteSpace t -> t <> "" ->
  splitWhitespaceFrom (t +:+ r) true = splitWhitespaceFrom (t +:+ r) false.
Proof.
  unfold noWhiteSpace. destruct t as [|c t]; [contradiction|]. intros H _.
  simpl in H. apply andb_true_iff in H as [Hc _]. apply negb_true_iff in Hc.
  simpl. now rewrite Hc.
Qed.


Lemma formatPair_not_empty (kv : string * string) : formatPair kv <> "".
Proof. destruct kv as [[|c k] v]; discriminate. Qed.


Lemma splitWhitespace_formatOperation (pairs : Operation) :
  pairs <> [] -> Forall plainPair pairs ->
  splitWhitespace (formatOperation pairs) = map formatPair pairs.
Proof.
  unfold splitWhitespace. intros Hne H.
  induction H as [|[k v] rest [[Hk _] Hv] Hrest IH]; [contradiction|].
  simpl in Hk, Hv.
  destruct rest as [|[k' v'] rest'].
  - simpl. apply splitWhitespaceFrom_token. now apply noWhiteSpace_pair.
  - change (formatOperation ((k, v) :: (k', v') :: rest'))
      with (k +:+ String "=" v +:+ String " " (formatOperation ((k', v') :: rest'))).
    rewrite append_assoc_r.
    rewrite splitWhitespaceFrom_token_space by now apply noWhiteSpace_pair.
    transitivity (formatPair (k, v) :: map formatPair ((k', v') :: rest'));
      [|reflexivity].
    f_equal. rewrite <- IH by discriminate.
    apply Forall_cons in Hrest as [[[Hk' _] Hv'] _]. simpl in Hk', Hv'.
    destruct rest' as [|kv'' rest''].
    + simpl. rewrite <- (append_empty_r (k' +:+ String "=" v')).
      apply splitWhitespaceFrom_after_space;
        [now apply noWhiteSpace_pair | apply (formatPair_not_empty (k', v'))].
    + change (formatOperation ((k', v') :: kv'' :: rest''))
        with (k' +:+ String "=" v' +:+ String " " (formatOperation (kv'' :: rest''))).
      rewrite append_assoc_r.
      apply splitWhitespaceFrom_after_space;
        [now apply noWhiteSpace_pair | apply (formatPair_not_empty (k', v'))].
Qed.

Lemma hasKey_false (operation : Operation) (key : string) :
  hasKey operation key = false <-> ~ In key (map fst operation).
Proof.
  induction operation as [|[k v] rest IH]; simpl; [tauto|].
  rewrite orb_false_iff, IH, String.eqb_neq. tauto.
Qed.

Lemma fold_set_plain (pairs acc : Operation) :
  Forall plainPair pairs -> NoDup (map fst (acc ++ pairs)) ->
  fold_left (fun operation kv => set operation (pairKey kv) (pairValue kv))
            (map formatPair pairs) acc = acc ++ pairs.
Proof.
  revert acc. induction pairs as [|[k v] rest IH]; intros acc H Hnd.
  - simpl. now rewrite app_nil_r.
  - apply Forall_cons in H as [[(Hk & Hp & Hi) Hv] Hrest]. simpl in Hk, Hp, Hi, Hv.
    cbn [map fold_left].
    assert (Hkey : pairKey (formatPair (k, v)) = k)
      by (unfold pairKey, formatPair; simpl; now rewrite splitEquals_pair).
    assert (Hval : pairValue (formatPair (k, v)) = v)
      by (unfold pairValue, formatPair; simpl; now rewrite splitEquals_pair).
    rewrite Hkey, Hval.
    assert (Hset : set acc k v = acc ++ [(k, v)]).
    { unfold set. apply String.eqb_neq in Hp. rewrite Hp, Hi.
      replace (hasKey acc k) with false; [reflexivity|].
      symmetry. apply hasKey_false. intros Hin.
      rewrite map_app in Hnd. apply NoDup_app in Hnd as (_ & Hnd & _).
      apply (Hnd k); [now apply list_elem_of_In | simpl; left]. }
    rewrite Hset, IH; [now rewrite <- app_assoc | exact Hrest |].
    now rewrite <- app_assoc.
Qed.

Lemma mem_app (c : ascii) (a b : string) :
  Str.mem c (a +:+ b) = Str.mem c a || Str.mem c b.
Proof.
  induction a as [|x a IH]; simpl; [reflexivity|]. now rewrite IH, orb_assoc.
Qed.

Lemma formatOperation_has_equals (pairs : Operation) :
  pairs <> [] -> Str.mem "=" (formatOperation pairs) = true.
Proof.
  destruct pairs as [|[k v] rest]; [contradiction|]. intros _.
  destruct rest as [|kv rest].
  - simpl. rewrite mem_app. simpl. apply orb_true_r.
  - change (formatOperation ((k, v) :: kv :: rest))
      with (k +:+ String "=" v +:+ String " " (formatOperation (kv :: rest))).
    rewrite mem_app. simpl. apply orb_true_r.
Qed.

(** X16.  [stringToOperation] reads the text [k1=v1 k2=v2 ...] back as the
    pairs it is written from, in their order, when there is at least one
    pair, the keys are pairwise distinct, no key or value holds white space
    or [=], and no key is [__proto__] or an array index. *)
Theorem stringToOperation_formatOperation (pairs : Operation) :
  pairs <> [] ->
  NoDup (map fst pairs) ->
  Forall plainPair pairs ->
  stringToOperation (formatOperation pairs) = pairs.
Proof.
  intros Hne Hnd Hp. unfold stringToOperation.
  destruct (String.eqb (formatOperation pairs) "default") eqn:E.
  - apply String.eqb_eq in E.
    pose proof (formatOperation_has_equals pairs Hne) as H.
    rewrite E in H. discriminate H.
  - rewrite (splitWhitespace_formatOperation pairs Hne Hp).
    now apply (fold_set_plain pairs []).
Qed.

Lemma stringToOperation_formatOperation_witness :
  stringToOperation "op=x user=u1" = [("op", "x"); ("user", "u1")].
Proof.
  apply (stringToOperation_formatOperation [("op", "x"); ("user", "u1")]).
  - discriminate.
  - repeat constructor; simpl; intros H.
    + apply list_elem_of_singleton in H. discriminate H.
    + inversion H.
  - repeat constructor; discriminate.
Defined.

(** ** The ini loader *)

Lemma addIniRules_Built (rawConfig : list (string * IniSection.t)) (config : Config) :
  Built config -> Built (snd (addIniRules rawConfig config)).
Proof.
  revert config. induction rawConfig as [|[name section] rest IH]; intros config Hb;
    [exact Hb|].
  simpl. pose proof (Built_addRule (iniDeclaration name section) config Hb) as H.
  destruct (addRule (iniDeclaration name section) config) as [[u|e] config']; [|exact H].
  now apply IH.
Qed.

Lemma addIniRules_rules (rawConfig : list (string * IniSection.t)) (config this : Config) :
  addIniRules rawConfig config = (Normal (), this) ->
  rules this = rules config ++ map iniRule rawConfig.
Proof.
  revert config. induction rawConfig as [|[name section] rest IH]; intros config; simpl.
  - intros [= <-]. now rewrite app_nil_r.
  - destruct (addRule (iniDeclaration name section) config) as [[[]|e] next] eqn:E;
      [|discriminate].
    intros H. rewrite (IH next H).
    destruct (addRule_returns _ _ _ _ E) as (op & found & Ho & _ & _ & _ & _ & _ & _ & Hr).
    simpl in Ho. injection Ho as <-. rewrite Hr, <- app_assoc. reflexivity.
Qed.

Lemma fromIniFile_normal (rawConfig : list (string * IniSection.t)) (this : Config) :
  fromIniFile (Normal rawConfig) = Normal this ->
  addIniRules rawConfig newConfig = (Normal (), this) /\ validate this = Normal ().
Proof.
  unfold fromIniFile. cbn [bindC].
  destruct (addIniRules rawConfig newConfig) as [[[]|e] config]; [|discriminate].
  destruct (validate config) as [[]|e] eqn:Ev; [|discriminate].
  intros [= <-]. auto.
Qed.

(** X17.  A configuration the ini loader returns holds one rule for each
    section, in the order of the sections, and nothing is moved to the end:
    the last section has to be the one that gives the empty pattern, named
    [default] (or made of [__proto__] pieces only), and a section named
    [default] whose policy is not [canary] is the last section. *)
Theorem fromIniFile_default_is_last_section (rawConfig : list (string * IniSection.t))
    (this : Config) :
  fromIniFile (Normal rawConfig) = Normal this ->
  rules this = map iniRule rawConfig /\
  (exists pre name section,
     rawConfig = pre ++ [(name, section)] /\
     (name = "default" \/
      Forall (fun kv => pairKey kv = "__proto__") (splitWhitespace name))) /\
  (forall i section,
     rawConfig !! i = Some ("default", section) ->
     IniSection.matchPolicy section <> Some MATCH_POLICY_CANARY ->
     S i = length rawConfig).
Proof.
  intros H. apply fromIniFile_normal in H as [Ha Hv].
  pose proof (addIniRules_rules _ _ _ Ha) as Hr. cbn [rules newConfig app] in Hr.
  assert (Hb : Built this).
  { pose proof (addIniRules_Built rawConfig newConfig Built_new) as Hb.
    now rewrite Ha in Hb. }
  split; [exact Hr|]. split.
  - destruct (validate_returns this Hv) as (pre & lastRule & Hl & Hd).
    rewrite Hr in Hl.
    destruct rawConfig as [|[name section] front _] using rev_ind;
      [destruct pre; discriminate Hl|].
    rewrite map_app in Hl. apply app_inj_tail in Hl as [_ <-].
    exists front, name, section. split; [reflexivity|].
    apply stringToOperation_nil.
    unfold Rule.isDefault, iniRule in Hd. cbn in Hd.
    now destruct (stringToOperation name).
  - intros i section Hi Hc.
    apply list_elem_of_split_length in Hi as (front & back & -> & ->).
    rewrite map_app in Hr. cbn [map] in Hr.
    assert (Hw : wellFormedRule (iniRule ("default", section))).
    { pose proof (Built_wellFormed this Hb) as Hw. rewrite Hr in Hw.
      apply Forall_app in Hw as [_ Hw]. now apply Forall_cons in Hw as [Hw _]. }
    assert (Hs : Rule.isStop (iniRule ("default", section)) = true).
    { destruct Hw as (_ & [Hp | Hp] & _); [now apply policy_stop in Hp|].
      exfalso. revert Hp. unfold iniRule, makeRule, iniDeclaration. cbn.
      destruct (IniSection.matchPolicy section) as [p|]; cbn; [|discriminate].
      destruct (negb (String.eqb p "")); [|discriminate].
      intros [= ->]. now apply Hc. }
    pose proof (Built_default_stop_last this Hb (map iniRule front)
                  (iniRule ("default", section)) (map iniRule back) Hr eq_refl Hs) as Hnil.
    destruct back; [|discriminate Hnil].
    rewrite length_app. simpl. lia.
Qed.

Lemma fromIniFile_default_is_last_section_witness :
  exists pre name section,
    [("op=x", iniSectionX); ("default", iniSectionX)] = pre ++ [(name, section)] /\
    (name = "default" \/
     Forall (fun kv => pairKey kv = "__proto__") (splitWhitespace name)).
Proof.
  apply (fromIniFile_default_is_last_section
           [("op=x", iniSectionX); ("default", iniSectionX)]
           (snd (addIniRules [("op=x", iniSectionX); ("default", iniSectionX)] newConfig))
           eq_refl).
Defined.



(** ** The result when the default rule is a stop rule *)

(** X19.  In a configuration whose last rule has an empty pattern and the
    policy [stop], a result of [findRules] is a list of rules that are no
    stop rules followed by exactly one stop rule; and [findRules] returns
    for every operation when the configuration is built through [addRule]
    and no pattern-value has two adjacent [*]. *)
Theorem findRules_ends_with_stop (this : Config) (pre : list Rule.t)
    (lastRule : Rule.t) (operation : Operation) :
  rules this = pre ++ [lastRule] ->
  Rule.isDefault lastRule = true -> Rule.isStop lastRule = true ->
  (forall found, findRules this operation = Normal found ->
     exists canaries stop,
       found = canaries ++ [stop] /\ Rule.isStop stop = true /\
       Forall (fun rule => Rule.isStop rule = false) canaries) /\
  (Built this ->
   Forall (fun rule => noDoubleStar (Rule.operation rule)) (rules this) ->
   exists found, findRules this operation = Normal found).
Proof.
  intros Hr Hd Hs. split.
  - intros found Hf.
    destruct (findRules_result this operation found Hf)
      as [[-> Hn] | (front & stop & back & _ & Hstop & _ & -> & Hn)].
    + exfalso. rewrite Forall_forall in Hn.
      assert (Hin : lastRule ∈ List.filter (ruleMatches operation) (rules this)).
      { apply list_elem_of_In, filter_In. split.
        - rewrite Hr. apply in_or_app. right. now left.
        - apply ruleMatches_true. now apply isDefault_matches. }
      specialize (Hn lastRule Hin). congruence.
    + now exists (List.filter (ruleMatches operation) front), stop.
  - intros Hb Hg. unfold findRules. apply findRulesFrom_returns.
    pose proof (Built_policies this Hb) as Hp.
    rewrite Forall_forall in Hp, Hg. apply Forall_forall.
    intros rule Hin. split; auto.
Qed.

Lemma findRules_ends_with_stop_witness :
  exists canaries stop,
    [canaryForX; stopForAll] = canaries ++ [stop] /\ Rule.isStop stop = true.
Proof.
  destruct (proj1 (findRules_ends_with_stop
                     {| rules := [canaryForX; stopForAll]; ruleLabels := ∅ |}
                     [canaryForX] stopForAll [("op", "x")] eq_refl eq_refl eq_refl)
                  [canaryForX; stopForAll] eq_refl)
    as (canaries & stop & H1 & H2 & _).
  exists canaries, stop. auto.
Defined.

(** ** Keys behind a key that fails *)

Lemma matchKeys_app (front back operation : Operation) :
  matchKeys (front ++ back) operation =
  let* matched := matchKeys front operation in
  if matched then matchKeys back operation else Normal false.
Proof.
  induction front as [|[k v] rest IH]; [reflexivity|].
  simpl. destruct (matchKey k v operation) as [[|]|e]; simpl; [exact IH | reflexivity..].
Qed.

(** X20.  The keys of a pattern are evaluated in their order up to the
    first key that fails: when the keys in front pass and a key fails, the
    rule does not match whatever keys follow, a glob that does not compile
    included; when a key throws, the search throws whatever follows. *)
Theorem matchKeys_stops_at_first_failure (front back : Operation) (k v : string)
    (operation : Operation) :
  matchKeys front operation = Normal true ->
  (matchKey k v operation = Normal false ->
   matchKeys (front ++ (k, v) :: back) operation = Normal false) /\
  (forall e, matchKey k v operation = Throw e ->
   matchKeys (front ++ (k, v) :: back) operation = Throw e).
Proof.
  intros Hf. rewrite matchKeys_app, Hf. cbn [bindC matchKeys].
  split; [intros -> | intros e ->]; reflexivity.
Qed.

Lemma matchKeys_stops_at_first_failure_witness :
  matchKeys ([("a", "x")] ++ ("b", "y") :: [("c", "z**")]) [("a", "x")] = Normal false /\
  matchKeys ([("a", "x")] ++ ("c", "z**") :: [("b", "y")]) [("a", "x")] =
    Throw (RegExpSyntaxError "^z.**").
Proof.
  split.
  - apply (proj1 (matchKeys_stops_at_first_failure [("a", "x")] [("c", "z**")]
                    "b" "y" [("a", "x")] eq_refl)). reflexivity.
  - apply (proj2 (matchKeys_stops_at_first_failure [("a", "x")] [("b", "y")]
                    "c" "z**" [("a", "x")] eq_refl)). reflexivity.
Defined.
